(** * Hueter-MFC bridge: a shallow embedding of [src/server.ts]

    The source file holds two Express servers.  The first one (the bridge,
    v0.3) receives tasks, asks a remote model to structure them and forwards
    the result; the second one (v0.2) lists workflows and keeps an in-memory
    registry of runs.  Both are embedded below, each in a module of its own,
    over a common model of the JavaScript values they manipulate. *)

From Stdlib Require Import ZArith NArith List Bool Lia String Ascii.
From stdpp Require Import gmap list.
Import ListNotations.

Local Open Scope Z_scope.
Set Warnings "-register-all".

(** ** JavaScript strings

    A JavaScript string is a sequence of UTF-16 code units.  The sanitizer
    trims Unicode white space and [JSON.parse] decodes [\uXXXX] escapes, so
    strings are kept as lists of code units rather than as bytes. *)

Module JsString.

Definition jstring : Type := list N.

(** The code units of an ASCII literal. *)
Fixpoint u16 (s : string) : jstring :=
  match s with
  | EmptyString => []
  | String c r => N_of_ascii c :: u16 r
  end.

Arguments u16 : simpl never.

Definition jstring_eqb (a b : jstring) : bool :=
  bool_decide (a = b).

(** WhiteSpace and LineTerminator code points of ECMA-262, the characters
    [String.prototype.trim] removes. *)
Definition is_white_space (c : N) : bool :=
  match c with
  | 9 | 10 | 11 | 12 | 13 | 32 | 160 | 5760
  | 8192 | 8193 | 8194 | 8195 | 8196 | 8197 | 8198 | 8199 | 8200 | 8201 | 8202
  | 8232 | 8233 | 8239 | 8287 | 12288 | 65279 => true
  | _ => false
  end%N.

Fixpoint trimStart (s : jstring) : jstring :=
  match s with
  | [] => []
  | c :: r => if is_white_space c then trimStart r else s
  end.

Definition trimEnd (s : jstring) : jstring := rev (trimStart (rev s)).

(** [s.trim()] *)
Definition trim (s : jstring) : jstring := trimStart (trimEnd s).

(** [s.startsWith(p)] *)
Fixpoint startsWith (s p : jstring) {struct p} : bool :=
  match p with
  | [] => true
  | a :: p' =>
      match s with
      | [] => false
      | b :: s' => (a =? b)%N && startsWith s' p'
      end
  end.

(** [s.indexOf(p)] is [indexOf_from p s 0]: the least index at which [p]
    occurs, or [-1]. *)
Fixpoint indexOf_from (p s : jstring) (i : Z) : Z :=
  if startsWith s p then i
  else match s with
       | [] => -1
       | _ :: r => indexOf_from p r (i + 1)
       end.

Definition indexOf (s p : jstring) : Z := indexOf_from p s 0.

(** [s.lastIndexOf(p)] is [lastIndexOf_from p s 0]: the greatest index at
    which [p] occurs, or [-1]. *)
Fixpoint lastIndexOf_from (p s : jstring) (i : Z) : Z :=
  match s with
  | [] => if startsWith s p then i else -1
  | _ :: r =>
      let j := lastIndexOf_from p r (i + 1) in
      if j =? -1 then (if startsWith s p then i else -1) else j
  end.

Definition lastIndexOf (s p : jstring) : Z := lastIndexOf_from p s 0.

(** Relative index of [String.prototype.slice]: negative positions count
    from the end, and everything is clamped to [0 .. length]. *)
Definition clamp_index (len k : Z) : Z :=
  if k <? 0 then Z.max (len + k) 0 else Z.min k len.

(** [s.slice(a, b)] *)
Definition slice (s : jstring) (a b : Z) : jstring :=
  let len := Z.of_nat (length s) in
  let from := clamp_index len a in
  let to := clamp_index len b in
  take (Z.to_nat (to - from)) (drop (Z.to_nat from) s).

(** [s.slice(a)] *)
Definition slice_from (s : jstring) (a : Z) : jstring :=
  slice s a (Z.of_nat (length s)).

Definition fence : jstring := u16 "```".
Definition newline : jstring := [10%N].

(** [s.includes("\n")] *)
Definition has_line_break (s : jstring) : bool :=
  negb (indexOf s newline =? -1).

(** A literal in which the apostrophe stands for the double quote, to write
    JSON texts. *)
Definition json_text (s : string) : jstring :=
  map (fun c => if (c =? 39)%N then 34%N else c) (u16 s).

End JsString.
Import JsString.

(** ** The fence sanitizer *)

(** The two steps taken inside [if (text.startsWith("```"))]. *)
Definition drop_first_line (text : jstring) : jstring :=
  let firstNewline := indexOf text newline in
  if negb (firstNewline =? -1) then slice_from text (firstNewline + 1)
  else text.

Definition drop_last_fence (text : jstring) : jstring :=
  let lastTicks := lastIndexOf text fence in
  if negb (lastTicks =? -1) then slice text 0 lastTicks else text.

(** [cleanJsonText] of the bridge. *)
Definition cleanJsonText (raw : jstring) : jstring :=
  let text := trim raw in
  let text :=
    if startsWith text fence then drop_last_fence (drop_first_line text)
    else text in
  trim text.

(** ** JavaScript values

    The values the two servers handle come out of [JSON.parse] (request
    bodies, the model's answer, the MFC's answer) or are built from such
    values by property reads and one property write. *)

Module JsValue.

(** A number is kept as the decimal literal it was read from,
    [mantissa * 10 ^ exponent]; the Number value is the binary64 nearest to
    it (ties to even). *)
Record number : Type := { mantissa : Z; exponent : Z }.

(** Whether the Number value is [+0] or [-0]: the literal is zero, or it lies
    at most half of the least positive binary64 ([2 ^ -1074]) away from
    zero. *)
Definition number_is_zero (n : number) : bool :=
  let m := Z.abs (mantissa n) in
  if exponent n <? 0 then m * 2 ^ 1075 <=? 10 ^ (- exponent n) else m =? 0.

(** An array carries its elements and its named own properties (an array
    read by [JSON.parse] has none; the bridge may add one). *)
Inductive value : Type :=
  | VUndefined
  | VNull
  | VBool (b : bool)
  | VNumber (n : number)
  | VString (s : jstring)
  | VArray (elems : list value) (named : list (jstring * value))
  | VObject (props : list (jstring * value)).

Inductive exn : Type :=
  | TypeError
  | RangeError
  | SyntaxError
  | Error (message : jstring).

(** Outcome of an evaluation that may throw (for an [async] function: of the
    promise it returns, fulfilled or rejected). *)
Inductive result (A : Type) : Type :=
  | Ok (a : A)
  | Throw (e : exn).
Arguments Ok {A} a.
Arguments Throw {A} e.

(** ToBoolean *)
Definition truthy (v : value) : bool :=
  match v with
  | VUndefined | VNull => false
  | VBool b => b
  | VNumber n => negb (number_is_zero n)
  | VString s => match s with [] => false | _ => true end
  | VArray _ _ | VObject _ => true
  end.

(** [typeof v === "string"] *)
Definition is_string (v : value) : bool :=
  match v with VString _ => true | _ => false end.

(** Strict equality with a string constant, [v === "..."]. *)
Definition is_the_string (v : value) (s : jstring) : bool :=
  match v with VString t => jstring_eqb t s | _ => false end.

Fixpoint own (k : jstring) (ps : list (jstring * value)) : option value :=
  match ps with
  | [] => None
  | (k', v) :: r => if jstring_eqb k' k then Some v else own k r
  end.

(** Writing an own data property: an existing key keeps its place. *)
Fixpoint define (k : jstring) (v : value) (ps : list (jstring * value))
  : list (jstring * value) :=
  match ps with
  | [] => [(k, v)]
  | (k', v') :: r =>
      if jstring_eqb k' k then (k, v) :: r else (k', v') :: define k v r
  end.

Definition or_undefined (o : option value) : value :=
  match o with Some v => v | None => VUndefined end.

(** [v.k] for a property name [k] that is neither an array index, nor
    [length], nor a member of a built-in prototype; every name the source
    reads ([output], [content], [text], [type], [value], [originalTaskId],
    [task], [id], [workflows], [label], [description]) is of that kind.
    Reading a property of [null] or [undefined] throws. *)
Definition get_field (v : value) (k : jstring) : result value :=
  match v with
  | VUndefined | VNull => Throw TypeError
  | VBool _ | VNumber _ | VString _ => Ok VUndefined
  | VArray _ named => Ok (or_undefined (own k named))
  | VObject props => Ok (or_undefined (own k props))
  end.

(** [v[0]] *)
Definition get_index0 (v : value) : result value :=
  match v with
  | VUndefined | VNull => Throw TypeError
  | VBool _ | VNumber _ => Ok VUndefined
  | VString s => Ok (match s with [] => VUndefined | c :: _ => VString [c] end)
  | VArray elems _ => Ok (match elems with [] => VUndefined | x :: _ => x end)
  | VObject props => Ok (or_undefined (own (u16 "0") props))
  end.

(** [v?.[0]] *)
Definition get_index0_opt (v : value) : result value :=
  match v with
  | VUndefined | VNull => Ok VUndefined
  | _ => get_index0 v
  end.

(** [v.k = x] in strict code (the source is an ES module), for a name [k]
    as in [get_field] other than [__proto__]: creating a property on a
    primitive throws. *)
Definition set_field (v : value) (k : jstring) (x : value) : result value :=
  match v with
  | VArray elems named => Ok (VArray elems (define k x named))
  | VObject props => Ok (VObject (define k x props))
  | _ => Throw TypeError
  end.

(** Whether ToString throws.  An object read from JSON has no callable own
    property, so an own [toString] hides [Object.prototype.toString] and
    leaves nothing to call; an array joins the strings of its elements,
    [null] and [undefined] counting as empty. *)
Fixpoint ToString_throws (v : value) : bool :=
  match v with
  | VObject props =>
      match own (u16 "toString") props with Some _ => true | None => false end
  | VArray elems _ =>
      (fix any (l : list value) : bool :=
         match l with
         | [] => false
         | x :: r => ToString_throws x || any r
         end) elems
  | _ => false
  end.

End JsValue.
Import JsValue.

(** ** [JSON.parse] (ECMA-404 grammar) *)

Module Json.

(** [c] is the code unit of the ASCII character [a]. *)
Definition is_char (c : N) (a : ascii) : bool := (c =? N_of_ascii a)%N.

Definition is_quote (c : N) : bool := (c =? 34)%N.

Definition is_backslash (c : N) : bool := (c =? 92)%N.

Definition is_json_ws (c : N) : bool :=
  (c =? 9)%N || (c =? 10)%N || (c =? 13)%N || (c =? 32)%N.

Fixpoint skip_ws (s : jstring) : jstring :=
  match s with
  | c :: r => if is_json_ws c then skip_ws r else s
  | [] => []
  end.

Definition digit (c : N) : option Z :=
  if ((48 <=? c) && (c <=? 57))%N then Some (Z.of_N c - 48) else None.

Definition hex_digit (c : N) : option N :=
  if ((48 <=? c) && (c <=? 57))%N then Some (c - 48)%N
  else if ((65 <=? c) && (c <=? 70))%N then Some (c - 55)%N
  else if ((97 <=? c) && (c <=? 102))%N then Some (c - 87)%N
  else None.

Definition hex4 (a b c d : N) : option N :=
  match hex_digit a, hex_digit b, hex_digit c, hex_digit d with
  | Some x, Some y, Some z, Some w => Some (((x * 16 + y) * 16 + z) * 16 + w)%N
  | _, _, _, _ => None
  end.

(** The character a one-letter escape stands for. *)
Definition escape (c : N) : option N :=
  if is_quote c then Some 34%N
  else if is_backslash c then Some 92%N
  else if is_char c "/" then Some 47%N
  else if is_char c "b" then Some 8%N
  else if is_char c "f" then Some 12%N
  else if is_char c "n" then Some 10%N
  else if is_char c "r" then Some 13%N
  else if is_char c "t" then Some 9%N
  else None.

Definition push (c : N) (o : option (jstring * jstring))
  : option (jstring * jstring) :=
  match o with Some (t, r) => Some (c :: t, r) | None => None end.

(** The characters of a string after its opening quote, up to and including
    the closing one; control characters must be escaped. *)
Fixpoint string_body (s : jstring) : option (jstring * jstring) :=
  match s with
  | [] => None
  | c :: r =>
      if is_quote c then Some ([], r)
      else if is_backslash c then
        match r with
        | [] => None
        | e :: r' =>
            if is_char e "u" then
              match r' with
              | h1 :: h2 :: h3 :: h4 :: r'' =>
                  match hex4 h1 h2 h3 h4 with
                  | Some u => push u (string_body r'')
                  | None => None
                  end
              | _ => None
              end
            else
              match escape e with
              | Some x => push x (string_body r')
              | None => None
              end
        end
      else if (c <? 32)%N then None
      else push c (string_body r)
  end.

(** A maximal run of decimal digits, read as a natural number and added to
    [acc], with their count added to [n]. *)
Fixpoint digits (s : jstring) (acc : Z) (n : Z) : Z * Z * jstring :=
  match s with
  | c :: r =>
      match digit c with
      | Some d => digits r (acc * 10 + d) (n + 1)
      | None => (acc, n, s)
      end
  | [] => (acc, n, s)
  end.

(** Integer part: a single [0], or a run of digits not starting with [0]. *)
Definition int_part (s : jstring) : option (Z * jstring) :=
  match s with
  | c :: r =>
      if is_char c "0" then Some (0, r)
      else let '(m, n, r') := digits s 0 0 in
           if n =? 0 then None else Some (m, r')
  | [] => None
  end.

(** Optional fraction: the mantissa extended by its digits, and their
    count. *)
Definition frac_part (m : Z) (s : jstring) : option (Z * Z * jstring) :=
  match s with
  | c :: r =>
      if is_char c "." then
        let '(m', n, r') := digits r m 0 in
        if n =? 0 then None else Some (m', n, r')
      else Some (m, 0, s)
  | [] => Some (m, 0, s)
  end.

Definition exp_digits (sign : Z) (s : jstring) : option (Z * jstring) :=
  let '(e, n, r) := digits s 0 0 in
  if n =? 0 then None else Some (sign * e, r).

Definition exp_part (s : jstring) : option (Z * jstring) :=
  match s with
  | c :: r =>
      if is_char c "e" || is_char c "E" then
        match r with
        | d :: r' =>
            if is_char d "+" then exp_digits 1 r'
            else if is_char d "-" then exp_digits (-1) r'
            else exp_digits 1 r
        | [] => None
        end
      else Some (0, s)
  | [] => Some (0, s)
  end.

Definition unsigned_number (sign : Z) (s : jstring) : option (value * jstring) :=
  match int_part s with
  | Some (m, r) =>
      match frac_part m r with
      | Some (m', n, r') =>
          match exp_part r' with
          | Some (e, r'') =>
              Some (VNumber {| mantissa := sign * m'; exponent := e - n |}, r'')
          | None => None
          end
      | None => None
      end
  | None => None
  end.

Definition literal (s : jstring) : option (value * jstring) :=
  if startsWith s (u16 "true") then Some (VBool true, drop 4 s)
  else if startsWith s (u16 "false") then Some (VBool false, drop 5 s)
  else if startsWith s (u16 "null") then Some (VNull, drop 4 s)
  else None.

(** A value that is neither an object nor an array. *)
Definition scalar (s : jstring) : option (value * jstring) :=
  match s with
  | c :: r =>
      if is_quote c then
        match string_body r with
        | Some (t, r') => Some (VString t, r')
        | None => None
        end
      else if is_char c "-" then unsigned_number (-1) r
      else match digit c with
           | Some _ => unsigned_number 1 s
           | None => literal s
           end
  | [] => None
  end.

(** [s] begins with the character [a]; what follows it. *)
Definition after (a : ascii) (s : jstring) : option jstring :=
  match s with
  | c :: r => if is_char c a then Some r else None
  | [] => None
  end.

(** One value, then the rest of the input.  Every call uses up one unit of
    [fuel]; two nested calls read at least one character, so twice the
    length of the input is enough. *)
Fixpoint parse_value (fuel : nat) (s : jstring) : option (value * jstring) :=
  match fuel with
  | O => None
  | S fuel =>
      match after "{" (skip_ws s) with
      | Some r =>
          match after "}" (skip_ws r) with
          | Some r' => Some (VObject [], r')
          | None => parse_members fuel r []
          end
      | None =>
          match after "[" (skip_ws s) with
          | Some r =>
              match after "]" (skip_ws r) with
              | Some r' => Some (VArray [] [], r')
              | None => parse_elements fuel r []
              end
          | None => scalar (skip_ws s)
          end
      end
  end

with parse_elements (fuel : nat) (s : jstring) (acc : list value)
  : option (value * jstring) :=
  match fuel with
  | O => None
  | S fuel =>
      match parse_value fuel s with
      | Some (v, r) =>
          match after "," (skip_ws r) with
          | Some r' => parse_elements fuel r' (v :: acc)
          | None =>
              match after "]" (skip_ws r) with
              | Some r' => Some (VArray (rev (v :: acc)) [], r')
              | None => None
              end
          end
      | None => None
      end
  end

with parse_members (fuel : nat) (s : jstring) (acc : list (jstring * value))
  : option (value * jstring) :=
  match fuel with
  | O => None
  | S fuel =>
      match skip_ws s with
      | q :: r =>
          if is_quote q then
            match string_body r with
            | Some (k, r1) =>
                match after ":" (skip_ws r1) with
                | Some r2 =>
                    match parse_value fuel r2 with
                    | Some (v, r3) =>
                        match after "," (skip_ws r3) with
                        | Some r4 => parse_members fuel r4 (define k v acc)
                        | None =>
                            match after "}" (skip_ws r3) with
                            | Some r4 => Some (VObject (define k v acc), r4)
                            | None => None
                            end
                        end
                    | None => None
                    end
                | None => None
                end
            | None => None
            end
          else None
      | [] => None
      end
  end.

Definition enough_fuel (text : jstring) : nat := 2 * length text + 2.

(** [JSON.parse(text)]: one value between optional white space, or a
    [SyntaxError]. *)
Definition JSON_parse (text : jstring) : result value :=
  match parse_value (enough_fuel text) text with
  | Some (v, r) =>
      match skip_ws r with
      | [] => Ok v
      | _ => Throw SyntaxError
      end
  | None => Throw SyntaxError
  end.

End Json.
Import Json.

(** ** Effects

    Console output, the two remote calls and the HTTP response are recorded,
    in the order in which they happen, in a trace; an evaluation yields its
    trace and either a value or the exception it threw. *)

Module Effects.

Inductive level : Type := LWarn | LError | LLog.

(** What the bridge prints, one constructor per [console] call of the
    source, with the values the call is given. *)
Inductive message : Type :=
  | MsgClientNotInitialised
  | MsgExtractFailed (err : exn)
  | MsgNoTextInOutput (completion : value)
  | MsgParseFailed (err : exn)
  | MsgOutputWas (cleaned : jstring)
  | MsgCoreNotOk (status : Z) (originalTaskId : value)
  | MsgCoreSent (originalTaskId : value)
  | MsgCoreSendFailed (err : exn)
  | MsgSeparator
  | MsgNewTask
  | MsgTaskId (v : value)
  | MsgTaskAuthor (v : value)
  | MsgTaskState (v : value)
  | MsgTaskText (v : value)
  | MsgInterpretFailed (err : exn)
  | MsgNoStructuredTask
  | MsgStructuredTaskCreated
  | MsgStructuredTask (structured : value)
  | MsgForwardUnhandled (err : exn)
  | MsgWorkflowsFallback (err : exn).

Inductive request : Type :=
  | ResponsesCreate (model : jstring) (userPrompt : jstring)
  | FetchPost (url : jstring) (body : value)
  | HttpGet (path : jstring).

Inductive event : Type :=
  | Console (l : level) (m : message)
  | Remote (r : request)
  | Respond (status : Z) (body : value).

Definition M (A : Type) : Type := list event * result A.

Definition ret {A} (a : A) : M A := ([], Ok a).

Definition bind {A B} (m : M A) (f : A -> M B) : M B :=
  match m with
  | (tr, Ok a) => let '(tr', r) := f a in (tr ++ tr', r)
  | (tr, Throw e) => (tr, Throw e)
  end.

Definition lift {A} (r : result A) : M A := ([], r).

Definition emit (e : event) : M unit := ([e], Ok tt).

Definition throw {A} (e : exn) : M A := ([], Throw e).

(** [try { m } catch (err) { h err }] *)
Definition try_catch {A} (m : M A) (h : exn -> M A) : M A :=
  match m with
  | (tr, Ok a) => (tr, Ok a)
  | (tr, Throw e) => let '(tr', r) := h e in (tr ++ tr', r)
  end.

Definition trace {A} (m : M A) : list event := fst m.
Definition outcome {A} (m : M A) : result A := snd m.

(** The responses sent in a trace, and the remote calls issued. *)
Definition responses (tr : list event) : list (Z * value) :=
  flat_map (fun e => match e with Respond s b => [(s, b)] | _ => [] end) tr.

Definition remote_calls (tr : list event) : list request :=
  flat_map (fun e => match e with Remote r => [r] | _ => [] end) tr.

End Effects.
Import Effects.

Notation "x <- m ;; k" := (bind m (fun x => k))
  (at level 100, m at next level, right associativity).
Notation "m ;;; k" := (bind m (fun _ => k))
  (at level 100, right associativity).

(** ** The bridge (v0.3): structuring and forwarding tasks *)

Module Bridge.

(** The environment variables the bridge reads at start-up. *)
Record Config : Type := {
  OPENAI_API_KEY : option jstring;
  HUETER_CORE_URL_env : option jstring
}.

Inductive client : Type := OpenAI (apiKey : jstring).

(** [openaiApiKey ? new OpenAI({ apiKey: openaiApiKey }) : null] *)
Definition openai (cfg : Config) : option client :=
  match OPENAI_API_KEY cfg with
  | Some (c :: k) => Some (OpenAI (c :: k))
  | Some [] | None => None
  end.

(** [process.env.HUETER_CORE_URL || "http://localhost:3000"] *)
Definition HUETER_CORE_URL (cfg : Config) : jstring :=
  match HUETER_CORE_URL_env cfg with
  | Some (c :: u) => c :: u
  | Some [] | None => u16 "http://localhost:3000"
  end.

(** What the outside world answers during one request.  [userPrompt] is the
    outcome of evaluating the user prompt's template literal on the task: it
    calls the runtime's ToString on three fields and
    [Date.prototype.toISOString] on [createdAt], which throws a [RangeError]
    when that is not a valid time value.  [responses_create] is the settled
    promise of the model call, [fetch] the one of the downstream call (the
    status code of the response, or the transport error). *)
Record World : Type := {
  userPrompt : result jstring;
  responses_create : result value;
  fetch : result Z
}.

Definition model_name : jstring := u16 "gpt-4.1-mini".

(** [extractTextFromResponse]; the result is a string or [null]. *)
Definition extractTextFromResponse (completion : value) : M (option jstring) :=
  try_catch
    (output <- lift (get_field completion (u16 "output")) ;;
     firstOutput <- lift (get_index0_opt output) ;;
     if negb (truthy firstOutput) then ret None else
     content <- lift (get_field firstOutput (u16 "content")) ;;
     firstContent <- lift (get_index0_opt content) ;;
     if negb (truthy firstContent) then ret None else
     text <- lift (get_field firstContent (u16 "text")) ;;
     match text with
     | VString s => ret (Some s)
     | _ =>
         type <- lift (get_field firstContent (u16 "type")) ;;
         if is_the_string type (u16 "output_text") && truthy text then
           inner <- lift (get_field text (u16 "value")) ;;
           match inner with
           | VString s => ret (Some s)
           | _ => ret None
           end
         else ret None
     end)
    (fun err => emit (Console LError (MsgExtractFailed err)) ;;; ret None).

(** [!rawText] for [rawText : string | null] *)
Definition no_text (rawText : option jstring) : bool :=
  match rawText with
  | None | Some [] => true
  | Some (_ :: _) => false
  end.

(** [completion.output[0].content[0]], the first content item of the first
    output of an envelope. *)
Definition first_content_item (completion : value) : result value :=
  match get_field completion (u16 "output") with
  | Ok output =>
      match get_index0 output with
      | Ok firstOutput =>
          match get_field firstOutput (u16 "content") with
          | Ok content => get_index0 content
          | Throw e => Throw e
          end
      | Throw e => Throw e
      end
  | Throw e => Throw e
  end.

(** A content item carries the text [s]: directly, or as the [value] of the
    text of an [output_text] item. *)
Definition carries_text (item : value) (s : jstring) : Prop :=
  get_field item (u16 "text") = Ok (VString s)
  \/ (get_field item (u16 "type") = Ok (VString (u16 "output_text"))
      /\ exists text,
           get_field item (u16 "text") = Ok text
           /\ get_field text (u16 "value") = Ok (VString s)).

Definition text_of (rawText : option jstring) : jstring :=
  match rawText with Some s => s | None => [] end.

(** The [try] block of [interpretTaskWithLio]: decode, and fill in
    [originalTaskId] when it is falsy. *)
Definition decode (task : value) (cleaned : jstring) : M value :=
  parsed <- lift (JSON_parse cleaned) ;;
  originalTaskId <- lift (get_field parsed (u16 "originalTaskId")) ;;
  if negb (truthy originalTaskId) then
    id <- lift (get_field task (u16 "id")) ;;
    lift (set_field parsed (u16 "originalTaskId") id)
  else ret parsed.

(** What [interpretTaskWithLio] does with the extracted text. *)
Definition structure_text (task completion : value) (rawText : option jstring)
  : M value :=
  if no_text rawText then
    emit (Console LError (MsgNoTextInOutput completion)) ;;; ret VNull
  else
    let cleaned := cleanJsonText (text_of rawText) in
    try_catch (decode task cleaned)
      (fun err =>
         emit (Console LError (MsgParseFailed err)) ;;;
         emit (Console LError (MsgOutputWas cleaned)) ;;;
         ret VNull).

(** [interpretTaskWithLio]; the result is the structured task or [null]. *)
Definition interpretTaskWithLio
  (openai : option client) (w : World) (task : value) : M value :=
  match openai with
  | None => emit (Console LWarn MsgClientNotInitialised) ;;; ret VNull
  | Some _ =>
      prompt <- lift (userPrompt w) ;;
      emit (Remote (ResponsesCreate model_name prompt)) ;;;
      completion <- lift (responses_create w) ;;
      rawText <- extractTextFromResponse completion ;;
      structure_text task completion rawText
  end.

(** [res.ok] *)
Definition status_ok (status : Z) : bool :=
  (200 <=? status) && (status <=? 299).

Definition structured_tasks_url (cfg : Config) : jstring :=
  HUETER_CORE_URL cfg ++ u16 "/api/structured-tasks".

(** [forwardStructuredTaskToHueter] up to its [await]: the request is
    issued. *)
Definition forward_request (cfg : Config) (structured : value) : M unit :=
  emit (Remote (FetchPost (structured_tasks_url cfg) structured)).

(** The rest of the [try] block, once [fetch] has settled.  The message of
    the not-OK branch is a template literal, so it applies ToString to
    [originalTaskId]. *)
Definition forward_settled (w : World) (structured : value) : M unit :=
  status <- lift (fetch w) ;;
  originalTaskId <- lift (get_field structured (u16 "originalTaskId")) ;;
  if negb (status_ok status) then
    if ToString_throws originalTaskId then throw TypeError
    else emit (Console LError (MsgCoreNotOk status originalTaskId))
  else emit (Console LLog (MsgCoreSent originalTaskId)).

Definition forward_failed (err : exn) : M unit :=
  emit (Console LError (MsgCoreSendFailed err)).

(** What runs after the [await], with the [catch] of the function. *)
Definition forward_rest (w : World) (structured : value) : M unit :=
  try_catch (forward_settled w structured) forward_failed.

(** [forwardStructuredTaskToHueter] *)
Definition forwardStructuredTaskToHueter
  (cfg : Config) (w : World) (structured : value) : M unit :=
  try_catch (forward_request cfg structured ;;; forward_settled w structured)
    forward_failed.

Definition missing_task : value :=
  VObject [(u16 "error", VString (u16 "Feld 'task' fehlt im Body."))].

Definition acknowledgement (structuredTask : value) : value :=
  VObject [(u16 "ok", VBool true);
           (u16 "received", VBool true);
           (u16 "structuredTask", structuredTask)].

(** [const { task } = req.body || {}] *)
Definition task_of_body (body : value) : result value :=
  get_field (if truthy body then body else VObject []) (u16 "task").

Definition log_task (t : value) : M unit :=
  id <- lift (get_field t (u16 "id")) ;;
  author <- lift (get_field t (u16 "author")) ;;
  state <- lift (get_field t (u16 "state")) ;;
  rawText <- lift (get_field t (u16 "rawText")) ;;
  emit (Console LLog MsgSeparator) ;;;
  emit (Console LLog MsgNewTask) ;;;
  emit (Console LLog (MsgTaskId id)) ;;;
  emit (Console LLog (MsgTaskAuthor author)) ;;;
  emit (Console LLog (MsgTaskState state)) ;;;
  emit (Console LLog (MsgTaskText rawText)) ;;;
  emit (Console LLog MsgSeparator).

(** The handler of [POST /tasks/from-mfc].  The forward call is not awaited:
    its request is issued, the response is sent, and what follows the
    [await] inside it runs afterwards, with its own [catch]. *)
Definition post_tasks_from_mfc (cfg : Config) (w : World) (body : value)
  : M unit :=
  task <- lift (task_of_body body) ;;
  if negb (truthy task) then emit (Respond 400 missing_task) else
  log_task task ;;;
  structured <-
    try_catch (interpretTaskWithLio (openai cfg) w task)
      (fun err => emit (Console LError (MsgInterpretFailed err)) ;;; ret VNull) ;;
  if negb (truthy structured) then
    emit (Console LWarn MsgNoStructuredTask) ;;;
    emit (Respond 200 (acknowledgement VNull))
  else
    emit (Console LLog MsgStructuredTaskCreated) ;;;
    emit (Console LLog (MsgStructuredTask structured)) ;;;
    emit (Console LLog MsgSeparator) ;;;
    forward_request cfg structured ;;;
    emit (Respond 200 (acknowledgement structured)) ;;;
    try_catch (forward_rest w structured)
      (fun err => emit (Console LError (MsgForwardUnhandled err))).

(** *** The declared shapes

    The TypeScript interfaces, as predicates on values: the fields listed
    are present with the declared types; further properties are allowed. *)

Definition has_string (ps : list (jstring * value)) (k : string) : bool :=
  match own (u16 k) ps with Some (VString _) => true | _ => false end.

Definition has_number (ps : list (jstring * value)) (k : string) : bool :=
  match own (u16 k) ps with Some (VNumber _) => true | _ => false end.

Definition is_string_array (v : value) : bool :=
  match v with VArray elems _ => forallb is_string elems | _ => false end.

Definition has_string_array (ps : list (jstring * value)) (k : string) : bool :=
  match own (u16 k) ps with Some v => is_string_array v | None => false end.

Definition has_one_of (ps : list (jstring * value)) (k : string)
  (literals : list string) : bool :=
  match own (u16 k) ps with
  | Some (VString s) => existsb (fun l => jstring_eqb s (u16 l)) literals
  | _ => false
  end.

Definition has_optional_string (ps : list (jstring * value)) (k : string)
  : bool :=
  match own (u16 k) ps with
  | None | Some VUndefined | Some (VString _) => true
  | _ => false
  end.

(** [typeof v === "object" && v !== null] *)
Definition is_object (v : value) : bool :=
  match v with VObject _ | VArray _ _ => true | _ => false end.

(** A decoded object with [originalTaskId] filled in, when it is missing or
    falsy, by [id]; nothing else is looked at. *)
Definition with_originalTaskId (id parsed : value) : value :=
  match parsed with
  | VObject props =>
      if truthy (or_undefined (own (u16 "originalTaskId") props)) then parsed
      else VObject (define (u16 "originalTaskId") id props)
  | VArray elems named =>
      if truthy (or_undefined (own (u16 "originalTaskId") named)) then parsed
      else VArray elems (define (u16 "originalTaskId") id named)
  | _ => parsed
  end.

(** The structured task for a task of identifier [id], given what the
    extractor found: the decoded object, or "none". *)
Definition structured_or_none (id : value) (rawText : result (option jstring))
  : value :=
  match rawText with
  | Ok (Some (c :: t)) =>
      match JSON_parse (cleanJsonText (c :: t)) with
      | Ok parsed =>
          if is_object parsed then with_originalTaskId id parsed else VNull
      | Throw _ => VNull
      end
  | _ => VNull
  end.

(** [interface IncomingTask] *)
Definition is_IncomingTask (v : value) : bool :=
  match v with
  | VObject ps =>
      has_string ps "id" && has_string ps "state"
      && has_number ps "createdAt" && has_number ps "updatedAt"
      && has_string ps "author" && has_string ps "rawText"
  | _ => false
  end.

(** The fields of [interface StructuredHueterTask] other than
    [originalTaskId]. *)
Definition has_task_fields (ps : list (jstring * value)) : bool :=
  has_string ps "goal" && has_string ps "contextSummary"
  && has_string_array ps "knowledgeRequirements"
  && has_string_array ps "subtasks"
  && has_string_array ps "constraints"
  && has_string_array ps "successCriteria"
  && has_one_of ps "priority" ["LOW"; "MEDIUM"; "HIGH"; "CRITICAL"]%string
  && has_one_of ps "recommendedNextStep"
       ["SEND_TO_HUETER"; "ASK_HUMAN_FOR_INFO"; "NEEDS_DESIGN_DECISION";
        "JUST_INFORMATION"; "UNKNOWN"]%string
  && has_string ps "notesForHueter"
  && has_optional_string ps "notesForHuman".

(** [interface StructuredHueterTask] *)
Definition is_StructuredHueterTask (v : value) : bool :=
  match v with
  | VObject ps => has_string ps "originalTaskId" && has_task_fields ps
  | _ => false
  end.

(** The guarantee of the specification: a value of the declared shape, or
    "none". *)
Definition StructuredTask_or_none (r : result value) : Prop :=
  exists v, r = Ok v /\ (v = VNull \/ is_StructuredHueterTask v = true).

(** What the handler answers for a structuring outcome. *)
Definition structured_or_null (r : result value) : value :=
  match r with
  | Ok v => if truthy v then v else VNull
  | Throw _ => VNull
  end.

(** The one response of [POST /tasks/from-mfc], for the [task] read from the
    body and the outcome of structuring it. *)
Definition expected_response (task : value) (r : result value) : Z * value :=
  if truthy task then (200, acknowledgement (structured_or_null r))
  else (400, missing_task).

(** The own property [task] of a request body, if it has one. *)
Definition task_field (body : value) : option value :=
  match body with
  | VObject props => own (u16 "task") props
  | VArray _ named => own (u16 "task") named
  | _ => None
  end.

(** The world [w] with another answer of the Hueter core. *)
Definition with_fetch (w : World) (f : result Z) : World :=
  {| userPrompt := userPrompt w;
     responses_create := responses_create w;
     fetch := f |}.

(** A trace up to the first response sent. *)
Fixpoint up_to_response (tr : list event) : list event :=
  match tr with
  | [] => []
  | Respond status body :: _ => [Respond status body]
  | e :: r => e :: up_to_response r
  end.

(** The user prompt once its four holes are filled with strings. *)
Definition userPrompt_text (rawText id author createdAt : jstring) : jstring :=
  newline ++ u16 "Somatische Original-Aufgabe:" ++ newline ++ newline
  ++ [34%N] ++ rawText ++ [34%N] ++ newline ++ newline
  ++ u16 "Metadaten:" ++ newline
  ++ u16 "- Task-ID: " ++ id ++ newline
  ++ u16 "- Autor: " ++ author ++ newline
  ++ u16 "- Zeitpunkt: " ++ createdAt ++ newline ++ newline
  ++ u16 "Bitte erzeuge eine strukturierte H" ++ [252%N]
  ++ u16 "ter-Task im beschriebenen JSON-Format." ++ newline.

End Bridge.
Import Bridge.

(** ** The run server (v0.2): workflows and runs *)

Module RunServer.

Inductive StepState : Type := pending | running | done | error.

Record RunStep : Type := { step_id : jstring; step_state : StepState }.

Record Run : Type := {
  runId : jstring;
  workflowId : jstring;
  status : StepState;
  startedAt : jstring;
  finishedAt : option jstring;
  steps : list RunStep
}.

Record WorkflowDef : Type := {
  wf_id : jstring;
  wf_label : jstring;
  wf_description : jstring
}.

(** The two non-ASCII letters of the built-in texts. *)
Definition u_umlaut : jstring := [252%N].

Definition fallbackWorkflows : list WorkflowDef :=
  [ {| wf_id := u16 "dev-start";
       wf_label := u16 "Dev-Start (MFC)";
       wf_description :=
         u16 "Startet die Dev-Umgebung f" ++ u_umlaut
           ++ u16 "r Meventa Flight Control." |};
    {| wf_id := u16 "hueter-dev-session";
       wf_label := u16 "H" ++ u_umlaut ++ u16 "ter-Dev-Session";
       wf_description :=
         u16 "Gef" ++ u_umlaut ++ u16 "hrte Session, um an H" ++ u_umlaut
           ++ u16 "ter / Meventa zu entwickeln (Planung + 1 Fokus-Aufgabe)." |} ].

(** How the request to the MFC ends: the base URL does not parse, the
    request emits [error], or the response ends with a body. *)
Inductive transport : Type :=
  | BadUrl
  | RequestFailed (err : exn)
  | Answered (raw : jstring).

(** [httpRequestToMfc]; the message of the parse error is followed, in the
    source, by the engine's text for the [SyntaxError]. *)
Definition httpRequestToMfc (t : transport) (method path : jstring) : M value :=
  match t with
  | BadUrl => throw TypeError
  | RequestFailed err => emit (Remote (HttpGet path)) ;;; throw err
  | Answered raw =>
      emit (Remote (HttpGet path)) ;;;
      match raw with
      | [] => ret VNull
      | _ =>
          match JSON_parse raw with
          | Ok parsed => ret parsed
          | Throw _ =>
              throw (Error (u16 "Failed to parse JSON from MFC " ++ method
                              ++ u16 " " ++ path))
          end
      end
  end.

(** [a || b] *)
Definition or_else (a b : value) : value := if truthy a then a else b.

Section Workflows.

(** Number::toString, the shortest decimal that reads back as the same
    binary64, is left to the runtime. *)
Variable Number_toString : number -> jstring.

(** [String(v)] for a value read from JSON.  The named properties of an
    array play no part: the only one an array ever gets is
    [originalTaskId]. *)
Fixpoint ToString (v : value) : result jstring :=
  match v with
  | VUndefined => Ok (u16 "undefined")
  | VNull => Ok (u16 "null")
  | VBool true => Ok (u16 "true")
  | VBool false => Ok (u16 "false")
  | VNumber n => Ok (Number_toString n)
  | VString s => Ok s
  | VObject props =>
      match own (u16 "toString") props with
      | Some _ => Throw TypeError
      | None => Ok (u16 "[object Object]")
      end
  | VArray elems _ =>
      (fix join (l : list value) : result jstring :=
         match l with
         | [] => Ok []
         | x :: r =>
             let first :=
               match x with
               | VUndefined | VNull => Ok []
               | _ => ToString x
               end in
             match first, r with
             | Throw e, _ => Throw e
             | Ok a, [] => Ok a
             | Ok a, _ :: _ =>
                 match join r with
                 | Ok b => Ok (a ++ u16 "," ++ b)
                 | Throw e => Throw e
                 end
             end
         end) elems
  end.

(** The arrow function given to [map]. *)
Definition to_WorkflowDef (w : value) : result WorkflowDef :=
  match get_field w (u16 "id") with
  | Throw e => Throw e
  | Ok id =>
      match ToString id with
      | Throw e => Throw e
      | Ok id' =>
          match get_field w (u16 "label") with
          | Throw e => Throw e
          | Ok label =>
              match ToString (or_else label id) with
              | Throw e => Throw e
              | Ok label' =>
                  match get_field w (u16 "description") with
                  | Throw e => Throw e
                  | Ok description =>
                      match ToString (or_else description (VString [])) with
                      | Throw e => Throw e
                      | Ok description' =>
                          Ok {| wf_id := id';
                                wf_label := label';
                                wf_description := description' |}
                      end
                  end
              end
          end
      end
  end.

(** [workflows.map(...)]: the first exception ends the loop. *)
Fixpoint map_WorkflowDef (ws : list value) : result (list WorkflowDef) :=
  match ws with
  | [] => Ok []
  | w :: r =>
      match to_WorkflowDef w with
      | Throw e => Throw e
      | Ok d =>
          match map_WorkflowDef r with
          | Throw e => Throw e
          | Ok ds => Ok (d :: ds)
          end
      end
  end.

Definition unexpected_structure : exn :=
  Error (u16 "Unerwartete Antwortstruktur von MFC /api/workflows").

(** The [try] block of [GET /workflows]: the list taken from the MFC. *)
Definition workflows_from_mfc (t : transport) : M (list WorkflowDef) :=
  mfcData <- httpRequestToMfc t (u16 "GET") (u16 "/api/workflows") ;;
  if negb (truthy mfcData) then throw unexpected_structure else
  workflows <- lift (get_field mfcData (u16 "workflows")) ;;
  match workflows with
  | VArray elems _ => lift (map_WorkflowDef elems)
  | _ => throw unexpected_structure
  end.

(** The handler of [GET /workflows]; its value is the list answered, with
    status 200 on both paths. *)
Definition get_workflows (t : transport) : M (list WorkflowDef) :=
  try_catch (workflows_from_mfc t)
    (fun e =>
       emit (Console LError (MsgWorkflowsFallback e)) ;;;
       ret fallbackWorkflows).

End Workflows.

(** The listing call fails: no answer, an answer that is not JSON, or one
    without a [workflows] array. *)
Definition lacks_workflows_array (mfcData : value) : bool :=
  match get_field mfcData (u16 "workflows") with
  | Ok (VArray _ _) => false
  | _ => true
  end.

Definition listing_failed (t : transport) : bool :=
  match t with
  | BadUrl | RequestFailed _ => true
  | Answered raw =>
      match JSON_parse raw with
      | Ok mfcData => lacks_workflows_array mfcData
      | Throw _ => true
      end
  end.

(** [now.replace(/[:.]/g, "-")] *)
Definition replace_colons_dots (now : jstring) : jstring :=
  map (fun c => if ((c =? 58) || (c =? 46))%N then 45%N else c) now.

Definition make_runId (now id : jstring) : jstring :=
  u16 "run-" ++ replace_colons_dots now ++ u16 "-" ++ id.

Definition make_steps (id : jstring) : list RunStep :=
  [ {| step_id := id ++ u16 "-step-1"; step_state := running |};
    {| step_id := id ++ u16 "-step-2"; step_state := pending |} ].

Definition make_run (now id : jstring) : Run :=
  {| runId := make_runId now id;
     workflowId := id;
     status := running;
     startedAt := now;
     finishedAt := None;
     steps := make_steps id |}.

(** The handler of [POST /workflows/:id/start], given the clock's reading
    [now = new Date().toISOString()]: the registry after the call and the
    run answered with status 202.  The key begins with [run-], so the
    assignment [runs[runId] = run] creates or overwrites an own property. *)
Definition post_workflows_start
  (runs : gmap jstring Run) (now id : jstring) : gmap jstring Run * Run :=
  let run := make_run now id in
  (<[runId run := run]> runs, run).

(** The property names every object inherits from [Object.prototype]. *)
Definition Object_prototype : list jstring :=
  map u16
    [ "constructor"; "__defineGetter__"; "__defineSetter__"; "hasOwnProperty";
      "__lookupGetter__"; "__lookupSetter__"; "isPrototypeOf";
      "propertyIsEnumerable"; "toString"; "valueOf"; "__proto__";
      "toLocaleString" ]%string.

(** [runs[runId]] on the object literal [{}] that serves as registry: an own
    property, else a member of [Object.prototype] (a function, or the
    prototype itself for [__proto__]; all of them truthy), else
    [undefined]. *)
Inductive property : Type :=
  | OwnRun (run : Run)
  | Inherited (name : jstring)
  | Undefined.

Definition runs_get (runs : gmap jstring Run) (runId : jstring) : property :=
  match runs !! runId with
  | Some run => OwnRun run
  | None =>
      if bool_decide (runId ∈ Object_prototype) then Inherited runId
      else Undefined
  end.

Inductive reply : Type :=
  | RunFound (run : Run)             (* 200, the run *)
  | NotARun (name : jstring)         (* 200, [res.json] of an inherited member *)
  | RunNotFound (runId : jstring).   (* 404, [{ error: "Run not found", runId }] *)

Definition reply_status (r : reply) : Z :=
  match r with
  | RunFound _ | NotARun _ => 200
  | RunNotFound _ => 404
  end.

(** The handler of [GET /runs/:runId]. *)
Definition get_run (runs : gmap jstring Run) (runId : jstring) : reply :=
  match runs_get runs runId with
  | Undefined => RunNotFound runId
  | OwnRun run => RunFound run
  | Inherited name => NotARun name
  end.

(** The handler of [GET /runs]: [Object.values(runs)]; the order of
    enumeration is not modelled. *)
Definition get_runs (runs : gmap jstring Run) : list Run :=
  (map_to_list runs).*2.

End RunServer.
Import RunServer.

(** ** Further notions used in the statements *)

Definition backtick : N := 96%N.

(** [v == null] *)
Definition is_nullish (v : value) : bool :=
  match v with VUndefined | VNull => true | _ => false end.

(** The seven lines the endpoint prints for a task it received. *)
Definition task_log (id author state rawText : value) : list event :=
  [Console LLog MsgSeparator; Console LLog MsgNewTask;
   Console LLog (MsgTaskId id); Console LLog (MsgTaskAuthor author);
   Console LLog (MsgTaskState state); Console LLog (MsgTaskText rawText);
   Console LLog MsgSeparator].

(** A workflow definition as the MFC sends it. *)
Definition WorkflowDef_value (d : WorkflowDef) : value :=
  VObject [(u16 "id", VString (wf_id d));
           (u16 "label", VString (wf_label d));
           (u16 "description", VString (wf_description d))].

(** The registry after a sequence of start requests, each given by the
    clock's reading and the workflow identifier. *)
Definition registry_from (runs : gmap jstring Run)
  (starts : list (jstring * jstring)) : gmap jstring Run :=
  fold_left (fun rs s => fst (post_workflows_start rs (fst s) (snd s)))
    starts runs.

(** ** Sample inputs *)

Module Samples.

Definition no_credential : Config :=
  {| OPENAI_API_KEY := None; HUETER_CORE_URL_env := None |}.

Definition text_envelope (text : jstring) : value :=
  VObject
    [(u16 "output",
      VArray
        [VObject
           [(u16 "content",
             VArray
               [VObject [(u16 "type", VString (u16 "output_text"));
                         (u16 "text", VString text)]] [])]] [])].

Definition sample_task : value :=
  VObject [(u16 "id", VString (u16 "t-1"));
           (u16 "state", VString (u16 "open"));
           (u16 "createdAt", VNumber {| mantissa := 0; exponent := 0 |});
           (u16 "updatedAt", VNumber {| mantissa := 0; exponent := 0 |});
           (u16 "author", VString (u16 "marcel"));
           (u16 "rawText", VString (u16 "Bitte aufraeumen"))].

Definition sample_prompt : jstring :=
  userPrompt_text (u16 "Bitte aufraeumen") (u16 "t-1") (u16 "marcel")
    (u16 "1970-01-01T00:00:00.000Z").

(** A world in which the model answers [text] and the core answers
    [status]. *)
Definition answering (text : jstring) (status : Z) : World :=
  {| userPrompt := Ok sample_prompt;
     responses_create := Ok (text_envelope text);
     fetch := Ok status |}.

Definition with_key : client := OpenAI (u16 "sk-test").


Definition noon : jstring := u16 "2025-01-01T12:00:00.000Z".

Definition complete_answer : jstring :=
  json_text
    "{'goal':'g','contextSummary':'c','knowledgeRequirements':['k'],'subtasks':[],'constraints':[],'successCriteria':['s'],'priority':'HIGH','recommendedNextStep':'SEND_TO_HUETER','notesForHueter':'n'}".

Definition complete_props : list (jstring * value) :=
  [(u16 "goal", VString (u16 "g"));
   (u16 "contextSummary", VString (u16 "c"));
   (u16 "knowledgeRequirements", VArray [VString (u16 "k")] []);
   (u16 "subtasks", VArray [] []);
   (u16 "constraints", VArray [] []);
   (u16 "successCriteria", VArray [VString (u16 "s")] []);
   (u16 "priority", VString (u16 "HIGH"));
   (u16 "recommendedNextStep", VString (u16 "SEND_TO_HUETER"));
   (u16 "notesForHueter", VString (u16 "n"))].

End Samples.
Import Samples.

(** * Properties *)

(** ** The model at work *)

Example JSON_parse_object :
  JSON_parse (json_text " {'a': [1, -2.50e+3, true, null], 'a': {}} ")
  = Ok (VObject [(u16 "a", VObject [])]).
Proof. reflexivity. Qed.

Example JSON_parse_number :
  JSON_parse (u16 "-2.50e+3")
  = Ok (VNumber {| mantissa := -250; exponent := 1 |}).
Proof. reflexivity. Qed.

Example JSON_parse_escapes :
  JSON_parse (json_text "'\u0048\u00fc\n'") = Ok (VString [72; 252; 10]%N).
Proof. reflexivity. Qed.

Example JSON_parse_rejects :
  map JSON_parse
    [u16 ""; u16 "01"; u16 "[1,]"; u16 "1."; u16 "nulls"; json_text "{'a':1,}"]
  = repeat (Throw SyntaxError) 6.
Proof. reflexivity. Qed.

Example truthy_underflow :
  truthy (VNumber {| mantissa := 1; exponent := -400 |}) = false
  /\ truthy (VNumber {| mantissa := 5; exponent := -324 |}) = true.
Proof. split; reflexivity. Qed.

Example clean_plain : cleanJsonText (u16 "  {}  ") = u16 "{}".
Proof. reflexivity. Qed.

Example clean_fenced :
  cleanJsonText (u16 "```json" ++ newline ++ u16 "{}" ++ newline ++ u16 "```")
  = u16 "{}".
Proof. reflexivity. Qed.

Example structuring_a_number :
  interpretTaskWithLio (Some with_key) (answering (u16 "5") 200) sample_task
  = ([Remote (ResponsesCreate model_name sample_prompt);
      Console LError (MsgParseFailed TypeError);
      Console LError (MsgOutputWas (u16 "5"))], Ok VNull).
Proof. reflexivity. Qed.

Example structuring_an_array :
  outcome
    (interpretTaskWithLio (Some with_key) (answering (u16 "[]") 200)
       sample_task)
  = Ok (VArray [] [(u16 "originalTaskId", VString (u16 "t-1"))]).
Proof. reflexivity. Qed.

Example workflows_from_the_mfc :
  outcome
    (get_workflows (fun _ => u16 "1")
       (Answered (json_text "{'workflows':[{'id':1,'label':'L'},{'id':'x'}]}")))
  = Ok [ {| wf_id := u16 "1"; wf_label := u16 "L"; wf_description := [] |};
         {| wf_id := u16 "x"; wf_label := u16 "x"; wf_description := [] |} ].
Proof. reflexivity. Qed.

(** ** Strings *)

(** Decide the integer tests of the goal, closing the absurd branches. *)
Ltac ztest :=
  repeat match goal with
    | |- context [?a =? ?b] => destruct (Z.eqb_spec a b); try lia
    | |- context [?a <? ?b] => destruct (Z.ltb_spec a b); try lia
    end.

Section StringFacts.

Implicit Types (s p t : jstring) (c : N) (i : Z).

Lemma trimStart_keeps c s :
  is_white_space c = false -> trimStart (c :: s) = c :: s.
Proof. intros H. simpl. now rewrite H. Qed.

Lemma trimEnd_keeps c s :
  is_white_space c = false -> trimEnd (s ++ [c]) = s ++ [c].
Proof.
  intros H. unfold trimEnd. rewrite rev_app_distr. simpl rev at 2.
  simpl app. rewrite trimStart_keeps by exact H.
  simpl. now rewrite rev_involutive.
Qed.

Lemma trimEnd_drops c s :
  is_white_space c = true -> trimEnd (s ++ [c]) = trimEnd s.
Proof.
  intros H. unfold trimEnd. rewrite rev_app_distr. simpl. now rewrite H.
Qed.

Lemma trim_drops_last c s :
  is_white_space c = true -> trim (s ++ [c]) = trim s.
Proof. intros H. unfold trim. now rewrite trimEnd_drops. Qed.

Lemma startsWith_refl_app p s : startsWith (p ++ s) p = true.
Proof.
  induction p as [|a p IH]; simpl; [reflexivity|].
  now rewrite N.eqb_refl, IH.
Qed.

Lemma startsWith_length s p :
  startsWith s p = true -> (length p <= length s)%nat.
Proof.
  revert s. induction p as [|a p IH]; intros [|b s] H; simpl in *;
    try lia; try discriminate.
  apply andb_prop in H as [_ H]. apply IH in H. lia.
Qed.

Lemma indexOf_from_absent c s i :
  0 <= i -> indexOf_from [c] s i = -1 <-> ~ In c s.
Proof.
  revert i. induction s as [|a s IH]; intros i Hi; simpl.
  - tauto.
  - destruct (N.eqb_spec c a) as [E|E]; simpl.
    + split; [lia | intros H; exfalso; apply H; left; congruence].
    + rewrite IH by lia. split.
      * intros H [F|F]; [congruence | tauto].
      * tauto.
Qed.

Lemma indexOf_from_first c s t i :
  0 <= i -> ~ In c s ->
  indexOf_from [c] (s ++ c :: t) i = i + Z.of_nat (length s).
Proof.
  revert i. induction s as [|a s IH]; intros i Hi H.
  - simpl. rewrite N.eqb_refl. simpl. lia.
  - simpl in *. destruct (N.eqb_spec c a) as [E|E]; simpl.
    + exfalso. apply H. left. congruence.
    + rewrite IH by (lia || tauto). lia.
Qed.

Lemma has_line_break_false s :
  has_line_break s = false <-> ~ In 10%N s.
Proof.
  unfold has_line_break, indexOf, newline.
  rewrite negb_false_iff, Z.eqb_eq. apply indexOf_from_absent. lia.
Qed.

Lemma lastIndexOf_from_short p s i :
  (length s < length p)%nat -> lastIndexOf_from p s i = -1.
Proof.
  revert i. induction s as [|a s IH]; intros i H.
  - destruct p; simpl in *; [lia | reflexivity].
  - simpl lastIndexOf_from. rewrite IH by (simpl in H; lia). simpl.
    destruct (startsWith (a :: s) p) eqn:E; [|reflexivity].
    apply startsWith_length in E. lia.
Qed.

Lemma lastIndexOf_from_suffix p s i :
  p <> [] -> 0 <= i ->
  lastIndexOf_from p (s ++ p) i = i + Z.of_nat (length s).
Proof.
  intros Hp. revert i. induction s as [|a s IH]; intros i Hi.
  - destruct p as [|c r]; [congruence|].
    simpl app. simpl lastIndexOf_from.
    rewrite lastIndexOf_from_short by (simpl; lia). simpl.
    rewrite N.eqb_refl. simpl.
    pose proof (startsWith_refl_app r []) as E. rewrite app_nil_r in E.
    rewrite E. simpl. lia.
  - simpl app. simpl lastIndexOf_from. rewrite IH by lia.
    ztest. simpl length. lia.
Qed.

Lemma lastIndexOf_from_found p s i :
  0 <= i -> startsWith s p = true -> lastIndexOf_from p s i <> -1.
Proof.
  intros Hi H. destruct s as [|a s].
  - simpl. rewrite H. lia.
  - simpl lastIndexOf_from.
    destruct (Z.eqb_spec (lastIndexOf_from p s (i + 1)) (-1)) as [E|E].
    + rewrite H. lia.
    + exact E.
Qed.

Lemma slice_from_app s t :
  slice_from (s ++ t) (Z.of_nat (length s)) = t.
Proof.
  unfold slice_from, slice, clamp_index. rewrite length_app.
  ztest. rewrite Z.min_l by lia. rewrite Z.min_l by lia.
  rewrite Nat2Z.id. rewrite drop_app_length.
  apply take_ge. lia.
Qed.

Lemma slice_prefix_app s t :
  slice (s ++ t) 0 (Z.of_nat (length s)) = s.
Proof.
  unfold slice, clamp_index. rewrite length_app. simpl (0 <? 0).
  ztest. rewrite Z.min_l by lia. rewrite Z.min_l by lia.
  rewrite Z.sub_0_r, Nat2Z.id. simpl drop.
  apply take_app_length.
Qed.

(** A text between two fence markers has nothing to trim. *)
Lemma trim_between_fences t : trim (fence ++ t ++ fence) = fence ++ t ++ fence.
Proof.
  unfold trim.
  replace (fence ++ t ++ fence) with ((fence ++ t ++ u16 "``") ++ [96%N]).
  - rewrite trimEnd_keeps by reflexivity. reflexivity.
  - rewrite <- !app_assoc. reflexivity.
Qed.

End StringFacts.

(** ** The fence sanitizer *)

Lemma drop_first_line_at (s t : jstring) :
  has_line_break s = false ->
  drop_first_line (s ++ newline ++ t) = t.
Proof.
  intros H%has_line_break_false. unfold drop_first_line, indexOf, newline.
  simpl app. rewrite indexOf_from_first by (lia || exact H).
  ztest. simpl negb. cbv iota.
  replace (0 + Z.of_nat (length s) + 1) with (Z.of_nat (length (s ++ [10%N])))
    by (rewrite length_app; simpl; lia).
  replace (s ++ 10%N :: t) with ((s ++ [10%N]) ++ t)
    by (rewrite <- app_assoc; reflexivity).
  apply slice_from_app.
Qed.

Lemma drop_first_line_none (s : jstring) :
  has_line_break s = false -> drop_first_line s = s.
Proof.
  unfold has_line_break, drop_first_line. now intros ->.
Qed.

Lemma drop_last_fence_at (s : jstring) : drop_last_fence (s ++ fence) = s.
Proof.
  unfold drop_last_fence, lastIndexOf.
  rewrite lastIndexOf_from_suffix by (discriminate || lia).
  ztest. simpl negb. cbv iota. rewrite Z.add_0_l. apply slice_prefix_app.
Qed.

Lemma drop_last_fence_found (s : jstring) :
  startsWith s fence = true ->
  drop_last_fence s = slice s 0 (lastIndexOf s fence).
Proof.
  intros H. unfold drop_last_fence.
  destruct (Z.eqb_spec (lastIndexOf s fence) (-1)) as [E|E]; [|reflexivity].
  exfalso. revert E. apply lastIndexOf_from_found; [lia | exact H].
Qed.

Lemma has_line_break_app (s t : jstring) :
  has_line_break s = false -> has_line_break t = false ->
  has_line_break (s ++ t) = false.
Proof.
  rewrite !has_line_break_false. intros Hs Ht [F|F]%in_app_or; tauto.
Qed.

(** C3 (amended).  A payload wrapped in a triple-backtick fence, with or
    without a language tag on the opening line (the tag holding no line
    break), is sanitized to the payload with its leading and trailing white
    space removed. *)
Theorem cleanJsonText_fenced (tag payload : jstring) :
  has_line_break tag = false ->
  cleanJsonText (fence ++ tag ++ newline ++ payload ++ newline ++ fence)
  = trim payload.
Proof.
  intros Htag. unfold cleanJsonText.
  replace (fence ++ tag ++ newline ++ payload ++ newline ++ fence)
    with (fence ++ (tag ++ newline ++ payload ++ newline) ++ fence)
    by (rewrite <- !app_assoc; reflexivity).
  rewrite trim_between_fences, startsWith_refl_app.
  replace (fence ++ (tag ++ newline ++ payload ++ newline) ++ fence)
    with ((fence ++ tag) ++ newline ++ (payload ++ newline) ++ fence)
    by (rewrite <- !app_assoc; reflexivity).
  rewrite drop_first_line_at
    by (apply has_line_break_app; [reflexivity | exact Htag]).
  rewrite drop_last_fence_at.
  apply trim_drops_last. reflexivity.
Qed.

Lemma cleanJsonText_fenced_witness :
  has_line_break (u16 "json") = false
  /\ cleanJsonText
       (fence ++ u16 "json" ++ newline ++ json_text "{'a': 1}" ++ newline
          ++ fence)
     = json_text "{'a': 1}".
Proof.
  split; [reflexivity|].
  exact (cleanJsonText_fenced (u16 "json") (json_text "{'a': 1}") eq_refl).
Defined.

(** C3 as stated fails: white space at the ends of the payload is lost. *)
Lemma fenced_payload_not_preserved :
  cleanJsonText
    (fence ++ u16 "json" ++ newline ++ json_text " {'a': 1}" ++ newline
       ++ fence)
  <> json_text " {'a': 1}".
Proof. vm_compute. discriminate. Qed.

(** C10.  When the trimmed input begins with the fence marker and holds no
    line break, nothing is dropped in front: the result is the trimmed input
    cut at the last fence marker, trimmed again.  So a lone fence marker
    gives the empty string, and a fenced payload written on one line keeps
    its opening fence. *)
Theorem cleanJsonText_one_line :
  (forall raw : jstring,
      startsWith (trim raw) fence = true ->
      has_line_break (trim raw) = false ->
      lastIndexOf (trim raw) fence <> -1
      /\ cleanJsonText raw
         = trim (slice (trim raw) 0 (lastIndexOf (trim raw) fence)))
  /\ cleanJsonText fence = []
  /\ cleanJsonText (json_text "```json{'a':1}```") = json_text "```json{'a':1}"
  /\ startsWith (cleanJsonText (json_text "```json{'a':1}```")) fence = true.
Proof.
  split; [|repeat split; reflexivity].
  intros raw Hfence Hline. split.
  - apply lastIndexOf_from_found; [lia | exact Hfence].
  - unfold cleanJsonText. rewrite Hfence.
    rewrite drop_first_line_none by exact Hline.
    now rewrite drop_last_fence_found by exact Hfence.
Qed.

Lemma cleanJsonText_one_line_witness :
  startsWith (trim (json_text "  ```json{'a':1}```  ")) fence = true
  /\ has_line_break (trim (json_text "  ```json{'a':1}```  ")) = false
  /\ cleanJsonText (json_text "  ```json{'a':1}```  ")
     = trim (slice (trim (json_text "  ```json{'a':1}```  ")) 0
               (lastIndexOf (trim (json_text "  ```json{'a':1}```  ")) fence)).
Proof.
  split; [reflexivity|]. split; [reflexivity|].
  exact (proj2 (proj1 cleanJsonText_one_line
                  (json_text "  ```json{'a':1}```  ") eq_refl eq_refl)).
Defined.

(** ** [JSON.parse]: the fuel is enough *)

Section JsonFacts.

Local Open Scope nat_scope.
Local Arguments is_char : simpl never.
Local Arguments is_quote : simpl never.
Local Arguments is_backslash : simpl never.
Local Arguments is_json_ws : simpl never.
Local Arguments digit : simpl never.
Local Arguments hex4 : simpl never.
Local Arguments escape : simpl never.

Lemma skip_ws_length (s : jstring) : length (skip_ws s) <= length s.
Proof.
  induction s as [|c s IH]; simpl; [lia|].
  destruct (is_json_ws c); simpl; lia.
Qed.

Lemma after_length (a : ascii) (s r : jstring) :
  after a s = Some r -> length s = S (length r).
Proof.
  destruct s as [|c s]; simpl; [discriminate|].
  destruct (is_char c a); [|discriminate]. now intros [= ->].
Qed.

Lemma after_skip_ws_length (a : ascii) (s r : jstring) :
  after a (skip_ws s) = Some r -> length r < length s.
Proof.
  intros H%after_length. pose proof (skip_ws_length s). lia.
Qed.

Lemma push_some (c : N) (o : option (jstring * jstring)) (t r : jstring) :
  push c o = Some (t, r) -> exists t', o = Some (t', r).
Proof. destruct o as [[t' r']|]; simpl; [|discriminate]. intros [= _ ->]. eauto. Qed.

Lemma string_body_length (n : nat) (s t r : jstring) :
  length s <= n -> string_body s = Some (t, r) -> length r < length s.
Proof.
  revert s t r. induction n as [|n IH]; intros s t r Hn H.
  - destruct s; [discriminate | simpl in Hn; lia].
  - destruct s as [|c s]; [discriminate|]. simpl in H, Hn.
    destruct (is_quote c). { injection H as _ <-. simpl. lia. }
    destruct (is_backslash c).
    { destruct s as [|e s]; [discriminate|].
      destruct (is_char e "u").
      - destruct s as [|h1 [|h2 [|h3 [|h4 s]]]]; try discriminate.
        destruct (hex4 h1 h2 h3 h4); [|discriminate].
        apply push_some in H as [t' H]. apply IH in H; simpl in *; lia.
      - destruct (escape e); [|discriminate].
        apply push_some in H as [t' H]. apply IH in H; simpl in *; lia. }
    destruct (c <? 32)%N; [discriminate|].
    apply push_some in H as [t' H]. apply IH in H; simpl in *; lia.
Qed.

Lemma digits_length (s r : jstring) (acc n m n' : Z) :
  digits s acc n = (m, n', r) ->
  length r <= length s /\ (n <= n')%Z /\ ((n < n')%Z -> length r < length s).
Proof.
  revert acc n. induction s as [|c s IH]; intros acc n H; simpl in H.
  - injection H as _ <- <-. simpl. lia.
  - destruct (digit c).
    + apply IH in H. simpl. lia.
    + injection H as _ <- <-. simpl. lia.
Qed.

Lemma int_part_length (s r : jstring) (m : Z) :
  int_part s = Some (m, r) -> length r < length s.
Proof.
  unfold int_part. destruct s as [|c s]; [discriminate|].
  destruct (is_char c "0"). { intros [= _ <-]. simpl. lia. }
  destruct (digits (c :: s) 0 0) as [[m' n] r'] eqn:E.
  apply digits_length in E. destruct (Z.eqb_spec n 0); [discriminate|].
  intros [= _ <-]. lia.
Qed.

Lemma frac_part_length (s r : jstring) (m m' n : Z) :
  frac_part m s = Some (m', n, r) -> length r <= length s.
Proof.
  unfold frac_part. destruct s as [|c s]; [now intros [= _ _ <-]|].
  destruct (is_char c "."); [|now intros [= _ _ <-]].
  destruct (digits s m 0) as [[m0 n0] r0] eqn:E. apply digits_length in E.
  destruct (n0 =? 0)%Z; [discriminate|]. intros [= _ _ <-]. simpl. lia.
Qed.

Lemma exp_digits_length (sign e : Z) (s r : jstring) :
  exp_digits sign s = Some (e, r) -> length r <= length s.
Proof.
  unfold exp_digits. destruct (digits s 0 0) as [[e0 n0] r0] eqn:E.
  apply digits_length in E. destruct (n0 =? 0)%Z; [discriminate|].
  intros [= _ <-]. lia.
Qed.

Lemma exp_part_length (s r : jstring) (e : Z) :
  exp_part s = Some (e, r) -> length r <= length s.
Proof.
  unfold exp_part. destruct s as [|c s]; [now intros [= _ <-]|].
  destruct (is_char c "e" || is_char c "E"); [|now intros [= _ <-]].
  destruct s as [|d s]; [discriminate|].
  destruct (is_char d "+"); [|destruct (is_char d "-")];
    intros H%exp_digits_length; simpl in *; lia.
Qed.

Lemma unsigned_number_length (sign : Z) (s r : jstring) (v : value) :
  unsigned_number sign s = Some (v, r) -> length r < length s.
Proof.
  unfold unsigned_number.
  destruct (int_part s) as [[m r0]|] eqn:E0; [|discriminate].
  destruct (frac_part m r0) as [[[m' n] r1]|] eqn:E1; [|discriminate].
  destruct (exp_part r1) as [[e r2]|] eqn:E2; [|discriminate].
  intros [= _ <-]. apply int_part_length in E0. apply frac_part_length in E1.
  apply exp_part_length in E2. lia.
Qed.

Lemma literal_length (s r : jstring) (v : value) :
  literal s = Some (v, r) -> length r < length s.
Proof.
  unfold literal.
  destruct (startsWith s (u16 "true")) eqn:E1;
    [|destruct (startsWith s (u16 "false")) eqn:E2;
      [|destruct (startsWith s (u16 "null")) eqn:E3; [|discriminate]]];
    intros [= _ <-];
    match goal with H : startsWith _ _ = true |- _ =>
      apply startsWith_length in H; simpl in H end;
    rewrite length_drop; lia.
Qed.

Lemma scalar_length (s r : jstring) (v : value) :
  scalar s = Some (v, r) -> length r < length s.
Proof.
  unfold scalar. destruct s as [|c s]; [discriminate|].
  destruct (is_quote c).
  { destruct (string_body s) as [[t r']|] eqn:E; [|discriminate].
    intros [= _ <-]. apply (string_body_length (length s)) in E; simpl; lia. }
  destruct (is_char c "-").
  { intros H%unsigned_number_length. simpl. lia. }
  destruct (digit c).
  - apply unsigned_number_length.
  - apply literal_length.
Qed.

(** Every parser reads at least one character. *)
Lemma parse_length (f : nat) :
  (forall s v r, parse_value f s = Some (v, r) -> length r < length s)
  /\ (forall s acc v r,
        parse_elements f s acc = Some (v, r) -> length r < length s)
  /\ (forall s acc v r,
        parse_members f s acc = Some (v, r) -> length r < length s).
Proof.
  induction f as [|f (IHv & IHe & IHm)]; [repeat split; discriminate|].
  repeat split.
  - intros s v r H. simpl in H.
    destruct (after "{" (skip_ws s)) as [r0|] eqn:E0.
    { apply after_skip_ws_length in E0.
      destruct (after "}" (skip_ws r0)) as [r1|] eqn:E1.
      - injection H as _ <-. apply after_skip_ws_length in E1. lia.
      - apply IHm in H. lia. }
    destruct (after "[" (skip_ws s)) as [r0|] eqn:E1.
    { apply after_skip_ws_length in E1.
      destruct (after "]" (skip_ws r0)) as [r1|] eqn:E2.
      - injection H as _ <-. apply after_skip_ws_length in E2. lia.
      - apply IHe in H. lia. }
    apply scalar_length in H. pose proof (skip_ws_length s). lia.
  - intros s acc v r H. simpl in H.
    destruct (parse_value f s) as [[v0 r0]|] eqn:E; [|discriminate].
    apply IHv in E.
    destruct (after "," (skip_ws r0)) as [r1|] eqn:E1.
    { apply after_skip_ws_length in E1. apply IHe in H. lia. }
    destruct (after "]" (skip_ws r0)) as [r1|] eqn:E2; [|discriminate].
    injection H as _ <-. apply after_skip_ws_length in E2. lia.
  - intros s acc v r H. simpl in H.
    pose proof (skip_ws_length s) as Hs.
    destruct (skip_ws s) as [|q r0]; [discriminate|].
    destruct (is_quote q); [|discriminate].
    destruct (string_body r0) as [[k r1]|] eqn:E; [|discriminate].
    apply (string_body_length (length r0)) in E; [|lia].
    destruct (after ":" (skip_ws r1)) as [r2|] eqn:E2; [|discriminate].
    apply after_skip_ws_length in E2.
    destruct (parse_value f r2) as [[v0 r3]|] eqn:E3; [|discriminate].
    apply IHv in E3. simpl in Hs.
    destruct (after "," (skip_ws r3)) as [r4|] eqn:E4.
    { apply after_skip_ws_length in E4. apply IHm in H. lia. }
    destruct (after "}" (skip_ws r3)) as [r4|] eqn:E5; [|discriminate].
    injection H as _ <-. apply after_skip_ws_length in E5. lia.
Qed.

(** Beyond twice the length of the input, more fuel changes nothing. *)
Lemma parse_fuel (f k : nat) :
  (forall s, 2 * length s + 1 <= f ->
             parse_value (f + k) s = parse_value f s)
  /\ (forall s acc, 2 * length s + 2 <= f ->
                    parse_elements (f + k) s acc = parse_elements f s acc)
  /\ (forall s acc, 2 * length s + 2 <= f ->
                    parse_members (f + k) s acc = parse_members f s acc).
Proof.
  induction f as [|f (IHv & IHe & IHm)]; [repeat split; intros; lia|].
  destruct (parse_length f) as (Lv & _ & _).
  repeat split.
  - intros s Hf. simpl.
    destruct (after "{" (skip_ws s)) as [r0|] eqn:E0.
    { apply after_skip_ws_length in E0.
      destruct (after "}" (skip_ws r0)); [reflexivity|]. apply IHm. lia. }
    destruct (after "[" (skip_ws s)) as [r0|] eqn:E1; [|reflexivity].
    apply after_skip_ws_length in E1.
    destruct (after "]" (skip_ws r0)); [reflexivity|]. apply IHe. lia.
  - intros s acc Hf. simpl. rewrite IHv by lia.
    destruct (parse_value f s) as [[v0 r0]|] eqn:E; [|reflexivity].
    apply Lv in E.
    destruct (after "," (skip_ws r0)) as [r1|] eqn:E1; [|reflexivity].
    apply after_skip_ws_length in E1. apply IHe. lia.
  - intros s acc Hf. simpl.
    pose proof (skip_ws_length s) as Hs.
    destruct (skip_ws s) as [|q r0]; [reflexivity|].
    destruct (is_quote q); [|reflexivity].
    destruct (string_body r0) as [[k0 r1]|] eqn:E; [|reflexivity].
    apply (string_body_length (length r0)) in E; [|lia].
    destruct (after ":" (skip_ws r1)) as [r2|] eqn:E2; [|reflexivity].
    apply after_skip_ws_length in E2. simpl in Hs.
    rewrite IHv by lia.
    destruct (parse_value f r2) as [[v0 r3]|] eqn:E3; [|reflexivity].
    apply Lv in E3.
    destruct (after "," (skip_ws r3)) as [r4|] eqn:E4; [|reflexivity].
    apply after_skip_ws_length in E4. apply IHm. lia.
Qed.

(** [JSON_parse] does not depend on its fuel: the parser never stops for
    want of it. *)
Lemma JSON_parse_fuel (text : jstring) (k : nat) :
  parse_value (enough_fuel text + k) text
  = parse_value (enough_fuel text) text.
Proof. apply parse_fuel. unfold enough_fuel. lia. Qed.

End JsonFacts.

(** ** The bridge *)

Section TraceFacts.

Lemma responses_app (a b : list event) :
  responses (a ++ b) = responses a ++ responses b.
Proof. apply flat_map_app. Qed.

Lemma remote_calls_app (a b : list event) :
  remote_calls (a ++ b) = remote_calls a ++ remote_calls b.
Proof. apply flat_map_app. Qed.

End TraceFacts.

(** Decide the next test of the goal. *)
Ltac test :=
  match goal with
  | |- context [if ?c then _ else _] => destruct c eqn:?
  end; simpl.

(** Close a goal [exists tr a, m = (tr, Ok a) /\ ...] by evaluation. *)
Ltac quiet := do 2 eexists; (split; [reflexivity | split; reflexivity]).

(** The extractor catches what it throws, says nothing to the network and
    sends no response. *)
Lemma extractTextFromResponse_total (completion : value) :
  exists tr rawText,
    extractTextFromResponse completion = (tr, Ok rawText)
    /\ responses tr = [] /\ remote_calls tr = [].
Proof.
  unfold extractTextFromResponse, try_catch, bind, lift, ret, emit.
  destruct (get_field completion (u16 "output")) as [output|e]; simpl;
    [|quiet].
  destruct (get_index0_opt output) as [firstOutput|e]; simpl; [|quiet].
  destruct (truthy firstOutput); simpl; [|quiet].
  destruct (get_field firstOutput (u16 "content")) as [content|e]; simpl;
    [|quiet].
  destruct (get_index0_opt content) as [firstContent|e]; simpl; [|quiet].
  destruct (truthy firstContent); simpl; [|quiet].
  destruct (get_field firstContent (u16 "text")) as [text|e]; simpl;
    [|quiet].
  destruct (get_field firstContent (u16 "type")) as [type|e],
    (get_field text (u16 "value")) as [inner|e'];
    destruct text; simpl; try quiet; repeat test; try quiet;
    destruct inner; simpl; quiet.
Qed.

Section ValueFacts.

Lemma get_field_defined (v x : value) (k : jstring) :
  get_field v k = Ok x -> x <> VUndefined -> truthy v = true.
Proof. destruct v; simpl; intros [= <-] H; congruence. Qed.

Lemma get_index0_defined (v x : value) :
  get_index0 v = Ok x -> get_index0_opt v = Ok x /\ v <> VUndefined.
Proof. destruct v; simpl; intros H; (discriminate || (split; congruence)). Qed.

Lemma get_field_truthy (v : value) (k : jstring) :
  truthy v = true -> exists x, get_field v k = Ok x.
Proof. destruct v; simpl; intros H; (discriminate || eauto). Qed.

Lemma own_define_same (k : jstring) (x : value) ps :
  own k (define k x ps) = Some x.
Proof.
  unfold jstring_eqb.
  induction ps as [|[k' v'] ps IH]; simpl; unfold jstring_eqb.
  - now rewrite bool_decide_eq_true_2.
  - destruct (bool_decide (k' = k)) eqn:E; simpl; unfold jstring_eqb.
    + now rewrite bool_decide_eq_true_2.
    + now rewrite E.
Qed.

Lemma own_define_other (k k' : jstring) (x : value) ps :
  k <> k' -> own k' (define k x ps) = own k' ps.
Proof.
  intros Hk. induction ps as [|[k0 v0] ps IH]; simpl; unfold jstring_eqb.
  - now rewrite bool_decide_eq_false_2.
  - destruct (bool_decide (k0 = k)) eqn:E; simpl; unfold jstring_eqb.
    + apply bool_decide_eq_true_1 in E. subst k0.
      now rewrite !bool_decide_eq_false_2.
    + destruct (bool_decide (k0 = k')); [reflexivity | exact IH].
Qed.

End ValueFacts.

Lemma openai_absent (cfg : Config) :
  openai cfg = None
  <-> OPENAI_API_KEY cfg = None \/ OPENAI_API_KEY cfg = Some [].
Proof.
  unfold openai. destruct (OPENAI_API_KEY cfg) as [[|c k]|]; split;
    intros H; try tauto; try discriminate; destruct H; discriminate.
Qed.

(** C6.  Without a client (no credential in the environment), structuring
    answers "none" after a warning and issues no remote call, whatever the
    model would have answered. *)
Theorem interpretTaskWithLio_without_client
  (cfg : Config) (w : World) (task : value) :
  openai cfg = None ->
  interpretTaskWithLio (openai cfg) w task
  = ([Console LWarn MsgClientNotInitialised], Ok VNull)
  /\ remote_calls (trace (interpretTaskWithLio (openai cfg) w task)) = []
  /\ forall w' : World,
       interpretTaskWithLio (openai cfg) w' task
       = interpretTaskWithLio (openai cfg) w task.
Proof. intros ->. repeat split. Qed.

Lemma interpretTaskWithLio_without_client_witness :
  openai no_credential = None
  /\ interpretTaskWithLio (openai no_credential)
       (answering (json_text "{'goal': 'x'}") 200) sample_task
     = ([Console LWarn MsgClientNotInitialised], Ok VNull).
Proof.
  split; [reflexivity|].
  exact (proj1 (interpretTaskWithLio_without_client no_credential
                  (answering (json_text "{'goal': 'x'}") 200) sample_task
                  eq_refl)).
Defined.

Lemma carries_text_truthy (item : value) (s : jstring) :
  carries_text item s -> truthy item = true.
Proof.
  intros [H|(H & _)]; apply (get_field_defined _ _ _ H); discriminate.
Qed.

(** C9.  An envelope whose first content item carries the empty string as
    its text: the extractor returns that empty string, and structuring
    reports the envelope and answers "none", exactly as it does for an
    envelope in which no text is found. *)
Theorem interpretTaskWithLio_empty_text
  (c : client) (w : World) (task completion item : value) (p : jstring) :
  first_content_item completion = Ok item ->
  carries_text item [] ->
  userPrompt w = Ok p ->
  responses_create w = Ok completion ->
  extractTextFromResponse completion = ([], Ok (Some []))
  /\ interpretTaskWithLio (Some c) w task
     = ([Remote (ResponsesCreate model_name p);
         Console LError (MsgNoTextInOutput completion)], Ok VNull)
  /\ forall (w' : World) (completion' : value),
       userPrompt w' = Ok p ->
       responses_create w' = Ok completion' ->
       extractTextFromResponse completion' = ([], Ok None) ->
       interpretTaskWithLio (Some c) w' task
       = ([Remote (ResponsesCreate model_name p);
           Console LError (MsgNoTextInOutput completion')], Ok VNull).
Proof.
  intros Hitem Htext Hp Hc.
  assert (Hextract : extractTextFromResponse completion = ([], Ok (Some []))).
  { unfold first_content_item in Hitem.
    destruct (get_field completion (u16 "output")) as [output|] eqn:E1;
      [|discriminate].
    destruct (get_index0 output) as [firstOutput|] eqn:E2; [|discriminate].
    destruct (get_field firstOutput (u16 "content")) as [content|] eqn:E3;
      [|discriminate].
    apply get_index0_defined in E2 as [E2 _].
    apply get_index0_defined in Hitem as [E4 Hcontent].
    pose proof (carries_text_truthy item [] Htext) as T1.
    assert (T2 : truthy firstOutput = true)
      by (apply (get_field_defined _ _ _ E3); exact Hcontent).
    unfold extractTextFromResponse, try_catch, bind, lift, ret.
    rewrite E1, E2. simpl. rewrite T2. simpl. rewrite E3, E4. simpl.
    rewrite T1. simpl.
    destruct Htext as [->|(-> & text & -> & Hvalue)]; [reflexivity|].
    destruct text; try discriminate; simpl in Hvalue |- *;
      injection Hvalue as ->; reflexivity. }
  split; [exact Hextract|]. split.
  - unfold interpretTaskWithLio, bind, lift, emit, ret.
    rewrite Hp, Hc. simpl. rewrite Hextract. reflexivity.
  - intros w' completion' Hp' Hc' Hnone.
    unfold interpretTaskWithLio, bind, lift, emit, ret.
    rewrite Hp', Hc'. simpl. rewrite Hnone. reflexivity.
Qed.

Lemma interpretTaskWithLio_empty_text_witness :
  interpretTaskWithLio (Some (OpenAI (u16 "sk-test"))) (answering [] 200)
    sample_task
  = ([Remote (ResponsesCreate model_name sample_prompt);
      Console LError (MsgNoTextInOutput (text_envelope []))], Ok VNull).
Proof.
  exact (proj1 (proj2
    (interpretTaskWithLio_empty_text (OpenAI (u16 "sk-test"))
       (answering [] 200) sample_task (text_envelope [])
       (VObject [(u16 "type", VString (u16 "output_text"));
                 (u16 "text", VString [])])
       sample_prompt eq_refl (or_introl eq_refl) eq_refl eq_refl))).
Defined.

Section Structuring.

Variables (c : client) (w : World) (task : value).

Lemma decode_result (id : value) (cleaned : jstring) :
  get_field task (u16 "id") = Ok id ->
  decode task cleaned
  = ([], match JSON_parse cleaned with
         | Ok parsed =>
             if is_object parsed then Ok (with_originalTaskId id parsed)
             else Throw TypeError
         | Throw e => Throw e
         end).
Proof.
  intros Hid. unfold decode, bind, lift, ret.
  destruct (JSON_parse cleaned) as [parsed|e]; [|reflexivity].
  destruct parsed; simpl; rewrite ?Hid; try reflexivity.
  - destruct (truthy (or_undefined (own (u16 "originalTaskId") named)));
      simpl; rewrite ?Hid; reflexivity.
  - destruct (truthy (or_undefined (own (u16 "originalTaskId") props)));
      simpl; rewrite ?Hid; reflexivity.
Qed.

Lemma structure_text_result (id completion : value) (rawText : option jstring) :
  get_field task (u16 "id") = Ok id ->
  outcome (structure_text task completion rawText)
  = Ok (structured_or_none id (Ok rawText)).
Proof.
  intros Hid. unfold structure_text.
  destruct rawText as [[|ch t]|]; try reflexivity.
  simpl no_text. cbv iota. simpl text_of.
  rewrite (decode_result id) by exact Hid. unfold structured_or_none.
  destruct (JSON_parse (cleanJsonText (ch :: t))) as [parsed|e];
    [|reflexivity].
  destruct (is_object parsed); reflexivity.
Qed.

Lemma interpretTaskWithLio_resolved
  (p : jstring) (completion : value) (tr : list event)
  (rawText : option jstring) :
  userPrompt w = Ok p ->
  responses_create w = Ok completion ->
  extractTextFromResponse completion = (tr, Ok rawText) ->
  interpretTaskWithLio (Some c) w task
  = (Remote (ResponsesCreate model_name p)
       :: tr ++ trace (structure_text task completion rawText),
     outcome (structure_text task completion rawText)).
Proof.
  intros Hp Hc Hx. unfold interpretTaskWithLio, bind, lift, emit.
  rewrite Hp, Hc. simpl. rewrite Hx.
  destruct (structure_text task completion rawText) as [tr' r]. reflexivity.
Qed.

End Structuring.

(** C1 (amended).  Once the model has answered, structuring returns either
    "none" or the object (or array) decoded from the sanitized text, taken
    as it is, with [originalTaskId] set to the task's identifier when it is
    missing or falsy.  No field is checked against the declared shape; "none"
    stands for a missing text, a text that is not JSON, and a text that
    decodes to [null] or to a number, a string or a boolean. *)
Theorem interpretTaskWithLio_unvalidated
  (c : client) (w : World) (task id completion : value) (p : jstring) :
  get_field task (u16 "id") = Ok id ->
  userPrompt w = Ok p ->
  responses_create w = Ok completion ->
  outcome (interpretTaskWithLio (Some c) w task)
  = Ok (structured_or_none id (outcome (extractTextFromResponse completion)))
  /\ (structured_or_none id (outcome (extractTextFromResponse completion))
      = VNull
      \/ is_object
           (structured_or_none id
              (outcome (extractTextFromResponse completion))) = true).
Proof.
  intros Hid Hp Hc.
  destruct (extractTextFromResponse_total completion)
    as (tr & rawText & Hx & _ & _).
  split.
  - rewrite (interpretTaskWithLio_resolved c w task p completion tr rawText)
      by assumption.
    rewrite Hx. apply structure_text_result. exact Hid.
  - rewrite Hx. simpl outcome. unfold structured_or_none.
    destruct rawText as [[|ch t]|]; auto.
    destruct (JSON_parse (cleanJsonText (ch :: t))) as [parsed|e]; auto.
    destruct parsed; simpl; auto.
    + destruct (truthy _); auto.
    + destruct (truthy _); auto.
Qed.

Lemma interpretTaskWithLio_unvalidated_witness :
  outcome
    (interpretTaskWithLio (Some with_key)
       (answering (json_text "{'goal': 5}") 200) sample_task)
  = Ok (VObject
          [(u16 "goal", VNumber {| mantissa := 5; exponent := 0 |});
           (u16 "originalTaskId", VString (u16 "t-1"))]).
Proof.
  exact (proj1
    (interpretTaskWithLio_unvalidated with_key
       (answering (json_text "{'goal': 5}") 200) sample_task
       (VString (u16 "t-1")) (text_envelope (json_text "{'goal': 5}"))
       sample_prompt eq_refl eq_refl eq_refl)).
Defined.

(** C1 as stated fails: a text that parses as JSON but lacks the required
    fields, and gives [goal] a number, is returned. *)
Lemma interpretTaskWithLio_returns_invalid :
  ~ StructuredTask_or_none
      (outcome
         (interpretTaskWithLio (Some with_key)
            (answering (json_text "{'goal': 5}") 200) sample_task)).
Proof.
  intros (v & E & H). vm_compute in E. injection E as <-.
  destruct H as [H|H]; vm_compute in H; discriminate.
Qed.

Lemma has_task_fields_define (x : value) (ps : list (jstring * value)) :
  has_task_fields (define (u16 "originalTaskId") x ps) = has_task_fields ps.
Proof.
  unfold has_task_fields, has_string, has_string_array, has_one_of,
    has_optional_string.
  rewrite !own_define_other by (vm_compute; discriminate). reflexivity.
Qed.

Lemma IncomingTask_id (task : value) :
  is_IncomingTask task = true ->
  exists id, get_field task (u16 "id") = Ok (VString id).
Proof.
  destruct task as [| | | | | |ps]; try discriminate. simpl.
  unfold has_string at 1.
  destruct (own (u16 "id") ps) as [[| | | |id| |]|]; try discriminate.
  eauto.
Qed.

(** C2.  When the model's text decodes to an object that has the fields of
    a structured task, structuring returns a structured task whose
    [originalTaskId] is the task's [id] if the model left the field out or
    empty, and the model's value otherwise. *)
Theorem interpretTaskWithLio_originalTaskId
  (c : client) (w : World) (task completion : value) (p text : jstring)
  (props : list (jstring * value)) :
  is_IncomingTask task = true ->
  userPrompt w = Ok p ->
  responses_create w = Ok completion ->
  outcome (extractTextFromResponse completion) = Ok (Some text) ->
  JSON_parse (cleanJsonText text) = Ok (VObject props) ->
  has_task_fields props = true ->
  has_optional_string props "originalTaskId" = true ->
  exists (v : value) (id : jstring),
    get_field task (u16 "id") = Ok (VString id)
    /\ outcome (interpretTaskWithLio (Some c) w task) = Ok v
    /\ is_StructuredHueterTask v = true
    /\ get_field v (u16 "originalTaskId")
       = Ok (VString
               match own (u16 "originalTaskId") props with
               | Some (VString (ch :: s)) => ch :: s
               | _ => id
               end).
Proof.
  intros Htask Hp Hc Hx Hparse Hfields Hid.
  destruct (IncomingTask_id task Htask) as [id Hget].
  destruct (extractTextFromResponse completion) as [tr r] eqn:E.
  simpl in Hx. subst r.
  assert (Htext : exists ch t, text = ch :: t).
  { destruct text as [|ch t]; [|eauto]. vm_compute in Hparse. discriminate. }
  destruct Htext as (ch & t & ->).
  exists (with_originalTaskId (VString id) (VObject props)), id.
  split; [exact Hget|]. split.
  - rewrite (interpretTaskWithLio_resolved c w task p completion tr
               (Some (ch :: t))) by assumption.
    simpl outcome.
    rewrite (structure_text_result task (VString id)) by exact Hget.
    unfold structured_or_none. rewrite Hparse. reflexivity.
  - unfold has_optional_string in Hid. simpl with_originalTaskId.
    destruct (own (u16 "originalTaskId") props) as [[| | | |[|ch' s]| |]|]
      eqn:Hown; try discriminate; simpl;
      unfold has_string; rewrite ?own_define_same, ?has_task_fields_define,
        ?Hown; simpl; rewrite ?own_define_same, ?Hown; auto.
Qed.

Lemma interpretTaskWithLio_originalTaskId_witness :
  exists (v : value) (id : jstring),
    get_field sample_task (u16 "id") = Ok (VString id)
    /\ outcome
         (interpretTaskWithLio (Some with_key) (answering complete_answer 200)
            sample_task) = Ok v
    /\ is_StructuredHueterTask v = true
    /\ get_field v (u16 "originalTaskId") = Ok (VString id).
Proof.
  exact (interpretTaskWithLio_originalTaskId with_key
           (answering complete_answer 200) sample_task
           (text_envelope complete_answer) sample_prompt complete_answer
           complete_props eq_refl eq_refl eq_refl eq_refl eq_refl eq_refl
           eq_refl).
Defined.

(** ** The ingestion endpoint *)

Section Ingestion.

Variables (cfg : Config) (w : World).

Lemma task_of_body_total (body : value) :
  exists task, task_of_body body = Ok task.
Proof.
  unfold task_of_body. apply get_field_truthy.
  destruct (truthy body) eqn:E; [exact E | reflexivity].
Qed.

Lemma log_task_total (task : value) :
  truthy task = true ->
  exists tr, log_task task = (tr, Ok tt) /\ responses tr = []
             /\ up_to_response tr = tr.
Proof.
  intros T. unfold log_task, bind, lift, emit.
  destruct (get_field_truthy task (u16 "id") T) as [x1 ->].
  destruct (get_field_truthy task (u16 "author") T) as [x2 ->].
  destruct (get_field_truthy task (u16 "state") T) as [x3 ->].
  destruct (get_field_truthy task (u16 "rawText") T) as [x4 ->].
  simpl. eexists. repeat split.
Qed.

Lemma up_to_response_quiet (a b : list event) :
  responses a = [] -> up_to_response (a ++ b) = a ++ up_to_response b.
Proof.
  induction a as [|e a IH]; intros H; [reflexivity|].
  destruct e; simpl in *; try discriminate; now rewrite IH.
Qed.

Lemma structure_text_quiet (task completion : value) (rawText : option jstring) :
  truthy task = true ->
  responses (trace (structure_text task completion rawText)) = [].
Proof.
  intros T. destruct (get_field_truthy task (u16 "id") T) as [id Hid].
  unfold structure_text. destruct (no_text rawText); [reflexivity|].
  rewrite (decode_result task id) by exact Hid.
  destruct (JSON_parse _) as [parsed|e]; [|reflexivity].
  destruct (is_object parsed); reflexivity.
Qed.

Lemma interpretTaskWithLio_quiet (o : option client) (task : value) :
  truthy task = true ->
  responses (trace (interpretTaskWithLio o w task)) = [].
Proof.
  intros T. destruct o as [c|]; [|reflexivity].
  destruct (userPrompt w) as [p|e] eqn:Hp;
    [|unfold interpretTaskWithLio, bind, lift; now rewrite Hp].
  destruct (responses_create w) as [completion|e] eqn:Hc;
    [|unfold interpretTaskWithLio, bind, lift; now rewrite Hp, Hc].
  destruct (extractTextFromResponse_total completion)
    as (tr & rawText & Hx & Hq & _).
  rewrite (interpretTaskWithLio_resolved c w task p completion tr rawText)
    by assumption.
  simpl. rewrite responses_app, Hq. apply structure_text_quiet. exact T.
Qed.

Lemma forward_rest_total (structured : value) :
  exists l m, forward_rest w structured = ([Console l m], Ok tt).
Proof.
  unfold forward_rest, forward_settled, forward_failed, try_catch, bind,
    lift, emit, throw.
  destruct (fetch w) as [status|e]; simpl; [|eauto].
  destruct (get_field structured (u16 "originalTaskId")) as [x|e]; simpl;
    [|eauto].
  destruct (status_ok status); simpl; [eauto|].
  destruct (ToString_throws x); simpl; eauto.
Qed.

(** The function is its request followed by the rest: the request itself
    cannot throw. *)
Lemma forward_split (structured : value) :
  forwardStructuredTaskToHueter cfg w structured
  = (forward_request cfg structured ;;; forward_rest w structured).
Proof.
  unfold forwardStructuredTaskToHueter, forward_rest, forward_request,
    forward_failed, try_catch, bind, emit.
  destruct (forward_settled w structured) as [tr [[]|e]]; reflexivity.
Qed.

End Ingestion.

Lemma interpretTaskWithLio_with_fetch
  (o : option client) (w : World) (f : result Z) (task : value) :
  interpretTaskWithLio o (with_fetch w f) task = interpretTaskWithLio o w task.
Proof. destruct o; reflexivity. Qed.

(** The trace of the handler in two worlds that differ only in what the
    Hueter core answers: the same events up to the same, single response,
    then what is left of the forward call. *)
Lemma post_tasks_from_mfc_shape
  (cfg : Config) (w : World) (f : result Z) (body task : value) :
  task_of_body body = Ok task ->
  exists (pre post post' : list event) (status : Z) (answer : value),
    (status, answer)
    = expected_response task
        (outcome (interpretTaskWithLio (openai cfg) w task))
    /\ responses pre = [] /\ responses post = [] /\ responses post' = []
    /\ post_tasks_from_mfc cfg w body
       = (pre ++ Respond status answer :: post, Ok tt)
    /\ post_tasks_from_mfc cfg (with_fetch w f) body
       = (pre ++ Respond status answer :: post', Ok tt).
Proof.
  intros Ht. unfold post_tasks_from_mfc, expected_response, bind, lift.
  rewrite Ht. simpl.
  destruct (truthy task) eqn:T; simpl.
  2:{ exists [], [], []. do 2 eexists. repeat split. }
  destruct (log_task_total task T) as (trl & -> & Hq & _). simpl.
  rewrite interpretTaskWithLio_with_fetch.
  pose proof (interpretTaskWithLio_quiet w (openai cfg) task T) as Hi.
  destruct (interpretTaskWithLio (openai cfg) w task) as [tri [v|e]];
    simpl in *.
  - destruct (truthy v) eqn:Tv; simpl.
    + destruct (forward_rest_total w v) as (l & m & ->).
      destruct (forward_rest_total (with_fetch w f) v) as (l' & m' & ->).
      simpl.
      exists
        (trl ++ tri
           ++ [Console LLog MsgStructuredTaskCreated;
               Console LLog (MsgStructuredTask v);
               Console LLog MsgSeparator;
               Remote (FetchPost (structured_tasks_url cfg) v)]),
        [Console l m], [Console l' m'].
      do 2 eexists. split; [reflexivity|].
      rewrite !responses_app, Hq, Hi.
      repeat split; rewrite <- !app_assoc; reflexivity.
    + exists (trl ++ tri ++ [Console LWarn MsgNoStructuredTask]), [], [].
      do 2 eexists. split; [reflexivity|].
      rewrite !responses_app, Hq, Hi.
      repeat split; rewrite <- !app_assoc; reflexivity.
  - exists (trl ++ (tri ++ [Console LError (MsgInterpretFailed e)])
              ++ [Console LWarn MsgNoStructuredTask]), [], [].
    do 2 eexists. split; [reflexivity|].
    rewrite !responses_app, Hq, Hi.
    repeat split; rewrite <- !app_assoc; reflexivity.
Qed.

(** C5 (amended).  The endpoint sends exactly one response and never
    throws.  The response is 400 exactly when the [task] read from the body
    is falsy (absent, [null], [false], [0] or the empty string); otherwise it
    is 200 with [ok], [received] and, as [structuredTask], the structured
    task if structuring returned one and [null] if it returned "none" or
    threw. *)
Theorem post_tasks_from_mfc_response (cfg : Config) (w : World) (body : value) :
  exists task : value,
    task_of_body body = Ok task
    /\ outcome (post_tasks_from_mfc cfg w body) = Ok tt
    /\ responses (trace (post_tasks_from_mfc cfg w body))
       = [expected_response task
            (outcome (interpretTaskWithLio (openai cfg) w task))].
Proof.
  destruct (task_of_body_total body) as [task Ht]. exists task.
  split; [exact Ht|].
  destruct (post_tasks_from_mfc_shape cfg w (fetch w) body task Ht)
    as (pre & post & _ & status & answer & <- & Hpre & Hpost & _ & -> & _).
  split; [reflexivity|].
  simpl. now rewrite responses_app, Hpre; simpl; rewrite Hpost.
Qed.

(** C5 as stated fails: a body whose [task] is [false] has the field, and
    is answered 400. *)
Lemma post_tasks_from_mfc_falsy_task :
  ~ (responses
       (trace
          (post_tasks_from_mfc no_credential (answering complete_answer 200)
             (VObject [(u16 "task", VBool false)])))
     = [(400, missing_task)]
     <-> task_field (VObject [(u16 "task", VBool false)]) = None).
Proof. intros [H _]. specialize (H eq_refl). discriminate H. Qed.

(** C7.  Whatever the Hueter core answers (success, another status, a
    transport error), the forward call completes without an exception; the
    endpoint's response, and everything the endpoint does up to sending it,
    are the same for every such answer. *)
Theorem forward_never_alters_response (cfg : Config) (w : World) :
  (forall structured : value,
      outcome (forwardStructuredTaskToHueter cfg w structured) = Ok tt)
  /\ (forall (f : result Z) (body : value),
         responses (trace (post_tasks_from_mfc cfg (with_fetch w f) body))
         = responses (trace (post_tasks_from_mfc cfg w body)))
  /\ (forall (f : result Z) (body : value),
         up_to_response (trace (post_tasks_from_mfc cfg (with_fetch w f) body))
         = up_to_response (trace (post_tasks_from_mfc cfg w body)))
  /\ (forall (f : result Z) (body : value),
         outcome (post_tasks_from_mfc cfg (with_fetch w f) body) = Ok tt).
Proof.
  split.
  { intros structured. rewrite forward_split.
    unfold forward_request, bind, emit.
    destruct (forward_rest_total w structured) as (l & m & ->). reflexivity. }
  repeat split; intros f body;
    destruct (task_of_body_total body) as [task Ht];
    destruct (post_tasks_from_mfc_shape cfg w f body task Ht)
      as (pre & post & post' & status & answer
          & _ & Hpre & Hpost & Hpost' & Hw & Hf);
    rewrite ?Hw, ?Hf; simpl.
  - rewrite !responses_app, Hpre. simpl. now rewrite Hpost, Hpost'.
  - now rewrite !up_to_response_quiet by exact Hpre.
  - reflexivity.
Qed.

(** ** The run server *)

(** [ToString_throws] tells when [String(v)] throws, whatever the runtime's
    rendering of numbers. *)
Lemma ToString_agrees (Number_toString : number -> jstring) :
  forall v : value,
    if ToString_throws v then ToString Number_toString v = Throw TypeError
    else exists s, ToString Number_toString v = Ok s.
Proof.
  fix IH 1. intros [| |[]|n|s|elems named|props]; simpl; eauto.
  - revert elems. fix IHl 1. intros [|x r]; simpl; [eauto|].
    specialize (IH x). specialize (IHl r).
    destruct (ToString_throws x).
    + destruct x; simpl in *; try discriminate; now rewrite IH.
    + simpl.
      assert (Hfirst : exists a,
                 match x with
                 | VUndefined | VNull => Ok []
                 | _ => ToString Number_toString x
                 end = Ok a)
        by (destruct x; eauto).
      destruct Hfirst as [a ->].
      destruct r as [|y r]; [eauto|].
      destruct ((fix any (l : list value) : bool :=
                   match l with
                   | [] => false
                   | x0 :: r0 => ToString_throws x0 || any r0
                   end) (y :: r)).
      * now rewrite IHl.
      * destruct IHl as [b ->]. eauto.
  - destruct (own (u16 "toString") props); eauto.
Qed.

Section Runs.

Variable runs : gmap jstring Run.

Lemma make_runId_not_inherited (now id : jstring) :
  make_runId now id ∉ Object_prototype.
Proof.
  unfold make_runId. intros H%list_elem_of_In.
  vm_compute in H. intuition discriminate.
Qed.

(** The part of C4 that holds: the run started, and reading it back. *)
Lemma start_then_get (now id : jstring) :
  let '(runs', run) := post_workflows_start runs now id in
  steps run
  = [ {| step_id := id ++ u16 "-step-1"; step_state := running |};
      {| step_id := id ++ u16 "-step-2"; step_state := pending |} ]
  /\ status run = running
  /\ finishedAt run = None
  /\ workflowId run = id
  /\ runs' !! runId run = Some run
  /\ get_run runs' (runId run) = RunFound run.
Proof.
  simpl. repeat split.
  - apply lookup_insert_eq.
  - unfold get_run, runs_get. now rewrite lookup_insert_eq.
Qed.

Lemma get_run_not_found (k : jstring) :
  runs !! k = None -> k ∉ Object_prototype ->
  get_run runs k = RunNotFound k.
Proof.
  intros H Hk. unfold get_run, runs_get. rewrite H.
  now rewrite bool_decide_eq_false_2.
Qed.

End Runs.

(** C4, where the code departs from it: an identifier that was never stored
    but names a member of [Object.prototype] is not answered 404. *)
Theorem get_run_inherited_member :
  (∅ : gmap jstring Run) !! u16 "constructor" = None
  /\ get_run ∅ (u16 "constructor") = NotARun (u16 "constructor")
  /\ reply_status (get_run ∅ (u16 "constructor")) = 200.
Proof.
  assert (E : get_run ∅ (u16 "constructor") = NotARun (u16 "constructor")).
  { unfold get_run, runs_get. rewrite lookup_empty. reflexivity. }
  split; [apply lookup_empty|]. split; [exact E|]. now rewrite E.
Qed.

(** C8.  The handler of [GET /workflows] always answers a list.  When the
    listing call fails (transport error, a body that is not JSON, an answer
    without a [workflows] array) the list is the built-in one, with the
    identifiers [dev-start] and [hueter-dev-session]. *)
Theorem get_workflows_fallback
  (Number_toString : number -> jstring) (t : transport) :
  (exists l, outcome (get_workflows Number_toString t) = Ok l)
  /\ (listing_failed t = true ->
      outcome (get_workflows Number_toString t) = Ok fallbackWorkflows)
  /\ map wf_id fallbackWorkflows
     = [u16 "dev-start"; u16 "hueter-dev-session"].
Proof.
  split; [|split; [|reflexivity]].
  - unfold get_workflows, try_catch.
    destruct (workflows_from_mfc Number_toString t) as [tr [l|e]]; simpl; eauto.
  - unfold get_workflows, workflows_from_mfc, httpRequestToMfc, listing_failed,
      lacks_workflows_array, try_catch, bind, lift, emit, throw, ret.
    destruct t as [|err|[|ch raw]]; try reflexivity.
    destruct (JSON_parse (ch :: raw)) as [mfcData|e]; [|reflexivity].
    simpl. destruct (truthy mfcData) eqn:T; simpl; [|reflexivity].
    destruct (get_field mfcData (u16 "workflows")) as [[]|e]; simpl;
      intros H; (discriminate H || reflexivity).
Qed.

Lemma get_workflows_fallback_witness :
  listing_failed (Answered (json_text "{'workflows': 'none'}")) = true
  /\ outcome
       (get_workflows (fun _ => []) (Answered (json_text "{'workflows': 'none'}")))
     = Ok fallbackWorkflows.
Proof.
  split; [reflexivity|].
  exact (proj1 (proj2
    (get_workflows_fallback (fun _ => [])
       (Answered (json_text "{'workflows': 'none'}")))) eq_refl).
Defined.

(** * Further properties *)

(** ** The sanitizer on any input *)

Section TrimFacts.

Implicit Types (s t : jstring) (c : N).

Lemma trimStart_app_keeps c s t :
  is_white_space c = false -> trimStart (s ++ c :: t) = trimStart s ++ c :: t.
Proof.
  intros H. induction s as [|a s IH]; simpl.
  - now rewrite H.
  - destruct (is_white_space a); [exact IH | reflexivity].
Qed.

Lemma trimStart_idem s : trimStart (trimStart s) = trimStart s.
Proof.
  induction s as [|a s IH]; simpl; [reflexivity|].
  destruct (is_white_space a) eqn:E; [exact IH|]. simpl. now rewrite E.
Qed.

Lemma trimStart_head c s t : trimStart s = c :: t -> is_white_space c = false.
Proof.
  induction s as [|a s IH]; simpl; [discriminate|].
  destruct (is_white_space a) eqn:E; [exact IH|]. now intros [= <- _].
Qed.

(** What [trimStart] removes is a prefix. *)
Lemma trimStart_suffix s : exists a, s = a ++ trimStart s.
Proof.
  induction s as [|x s [a IH]]; simpl; [now exists []|].
  destruct (is_white_space x).
  - exists (x :: a). simpl. now rewrite <- IH.
  - now exists [].
Qed.

(** What [trimEnd] removes is a suffix. *)
Lemma trimEnd_prefix s : exists b, s = trimEnd s ++ b.
Proof.
  unfold trimEnd. destruct (trimStart_suffix (rev s)) as [a E].
  exists (rev a). rewrite <- rev_app_distr, <- E. now rewrite rev_involutive.
Qed.

Lemma trimEnd_last s t c : trimEnd s = t ++ [c] -> is_white_space c = false.
Proof.
  unfold trimEnd. intros H. apply (f_equal (@rev N)) in H.
  rewrite rev_involutive, rev_app_distr in H. simpl in H.
  now apply trimStart_head in H.
Qed.

Lemma trimEnd_fixed s :
  (forall t c, s = t ++ [c] -> is_white_space c = false) -> trimEnd s = s.
Proof.
  intros H. destruct s as [|x s] using rev_ind; [reflexivity|].
  apply trimEnd_keeps. now apply (H s).
Qed.

Lemma trimStart_last s t c :
  trimStart s = t ++ [c] -> exists t', s = t' ++ [c].
Proof.
  intros H. destruct (trimStart_suffix s) as [a E]. rewrite H in E.
  exists (a ++ t). now rewrite <- app_assoc.
Qed.

Lemma trim_last s t c : trim s = t ++ [c] -> is_white_space c = false.
Proof.
  unfold trim. intros [t' H]%trimStart_last. now apply trimEnd_last in H.
Qed.

Lemma trim_idem s : trim (trim s) = trim s.
Proof.
  unfold trim at 1. rewrite trimEnd_fixed.
  - unfold trim. apply trimStart_idem.
  - intros t c. apply trim_last.
Qed.

(** Trimming only removes text at the two ends. *)
Lemma trim_within s : exists a b, s = a ++ trim s ++ b.
Proof.
  unfold trim. destruct (trimEnd_prefix s) as [b Eb].
  destruct (trimStart_suffix (trimEnd s)) as [a Ea].
  exists a, b. rewrite app_assoc, <- Ea. exact Eb.
Qed.

Lemma slice_within s (x y : Z) : exists a b, s = a ++ slice s x y ++ b.
Proof.
  unfold slice.
  set (from := Z.to_nat (clamp_index (Z.of_nat (length s)) x)).
  set (n := Z.to_nat _).
  exists (take from s), (drop n (drop from s)).
  now rewrite (take_drop n), (take_drop from).
Qed.

Lemma drop_first_line_within s : exists a b, s = a ++ drop_first_line s ++ b.
Proof.
  unfold drop_first_line.
  destruct (negb _); [apply slice_within | exists [], []; now rewrite app_nil_r].
Qed.

Lemma drop_last_fence_within s : exists a b, s = a ++ drop_last_fence s ++ b.
Proof.
  unfold drop_last_fence.
  destruct (negb _); [apply slice_within | exists [], []; now rewrite app_nil_r].
Qed.

Lemma within_trans s t u :
  (exists a b, s = a ++ t ++ b) -> (exists a b, t = a ++ u ++ b) ->
  exists a b, s = a ++ u ++ b.
Proof.
  intros (a & b & ->) (a' & b' & ->). exists (a ++ a'), (b' ++ b).
  now rewrite <- !app_assoc.
Qed.

End TrimFacts.

(** X1.  A text whose trimmed form does not begin with the fence marker is
    only trimmed. *)
Theorem cleanJsonText_unfenced (raw : jstring) :
  startsWith (trim raw) fence = false -> cleanJsonText raw = trim raw.
Proof. intros H. unfold cleanJsonText. rewrite H. apply trim_idem. Qed.

Lemma cleanJsonText_unfenced_witness :
  startsWith (trim (json_text "  {'a': '```'}  ")) fence = false
  /\ cleanJsonText (json_text "  {'a': '```'}  ") = json_text "{'a': '```'}".
Proof.
  split; [reflexivity|].
  exact (cleanJsonText_unfenced (json_text "  {'a': '```'}  ") eq_refl).
Defined.

(** X2.  The sanitizer's result never begins or ends with white space:
    trimming it again changes nothing. *)
Theorem cleanJsonText_trimmed (raw : jstring) :
  trim (cleanJsonText raw) = cleanJsonText raw
  /\ (forall c t, cleanJsonText raw = c :: t -> is_white_space c = false)
  /\ (forall t c, cleanJsonText raw = t ++ [c] -> is_white_space c = false).
Proof.
  unfold cleanJsonText. split; [apply trim_idem|]. split.
  - intros c t H. unfold trim in H. now apply trimStart_head in H.
  - intros t c. apply trim_last.
Qed.

(** X3.  The sanitizer only cuts text off the two ends of its input: the
    result occurs in the input as one piece, so it is never longer. *)
Theorem cleanJsonText_within (raw : jstring) :
  (exists a b, raw = a ++ cleanJsonText raw ++ b)
  /\ (length (cleanJsonText raw) <= length raw)%nat.
Proof.
  assert (H : exists a b, raw = a ++ cleanJsonText raw ++ b).
  { unfold cleanJsonText.
    apply (within_trans raw (trim raw)); [apply trim_within|].
    destruct (startsWith (trim raw) fence); [|apply trim_within].
    apply (within_trans _ (drop_first_line (trim raw)));
      [apply drop_first_line_within|].
    apply (within_trans _ (drop_last_fence (drop_first_line (trim raw))));
      [apply drop_last_fence_within | apply trim_within]. }
  split; [exact H|]. destruct H as (a & b & H).
  apply (f_equal (@length N)) in H. rewrite !length_app in H. lia.
Qed.

Section ClosingFence.

Implicit Types (s t p : jstring) (i : Z).

Lemma startsWith_cons (a c : N) s p :
  startsWith (c :: s) (a :: p) = (a =? c)%N && startsWith s p.
Proof. reflexivity. Qed.

Lemma lastIndexOf_from_cons (a : N) s p i :
  lastIndexOf_from p (a :: s) i
  = if lastIndexOf_from p s (i + 1) =? -1
    then (if startsWith (a :: s) p then i else -1)
    else lastIndexOf_from p s (i + 1).
Proof. reflexivity. Qed.

Lemma fence_backticks : fence = [backtick; backtick; backtick].
Proof. reflexivity. Qed.

Lemma startsWith_no_backtick t p :
  ~ In backtick t -> startsWith t (backtick :: p) = false.
Proof.
  intros H. destruct t as [|c t]; [reflexivity|]. rewrite startsWith_cons.
  destruct (N.eqb_spec backtick c) as [E|E]; [|reflexivity].
  exfalso. apply H. now left.
Qed.

Lemma lastIndexOf_from_no_backtick t i :
  ~ In backtick t -> lastIndexOf_from fence t i = -1.
Proof.
  rewrite fence_backticks.
  revert i. induction t as [|c t IH]; intros i H; [reflexivity|].
  rewrite lastIndexOf_from_cons, IH by (intros F; apply H; now right).
  rewrite Z.eqb_refl. now rewrite startsWith_no_backtick.
Qed.

Lemma lastIndexOf_from_closing s t i :
  0 <= i -> ~ In backtick t ->
  lastIndexOf_from fence (s ++ fence ++ t) i = i + Z.of_nat (length s).
Proof.
  intros Hi Ht. revert i Hi. induction s as [|a s IH]; intros i Hi.
  - pose proof (lastIndexOf_from_no_backtick t) as E0.
    rewrite fence_backticks in *.
    change ([] ++ [backtick; backtick; backtick] ++ t)
      with (backtick :: backtick :: backtick :: t).
    rewrite !lastIndexOf_from_cons, !E0 by exact Ht.
    rewrite !Z.eqb_refl, !startsWith_cons.
    rewrite !startsWith_no_backtick by exact Ht.
    rewrite !N.eqb_refl, !andb_false_r. simpl. lia.
  - simpl app. rewrite lastIndexOf_from_cons, IH by lia.
    ztest. simpl length. lia.
Qed.

Lemma trimEnd_app_keeps s t c :
  is_white_space c = false -> trimEnd (s ++ c :: t) = s ++ c :: trimEnd t.
Proof.
  intros H. unfold trimEnd.
  rewrite rev_app_distr. simpl rev at 1. rewrite <- app_assoc. simpl app.
  rewrite trimStart_app_keeps by exact H.
  rewrite rev_app_distr. simpl. now rewrite rev_involutive, <- app_assoc.
Qed.

Lemma trimEnd_In t c : In c (trimEnd t) -> In c t.
Proof.
  destruct (trimEnd_prefix t) as [b E]. intros H. rewrite E.
  apply in_or_app. now left.
Qed.

End ClosingFence.

(** X4.  Whatever follows the closing fence is discarded with it: when the
    tag holds no line break and the text after the closing fence holds no
    backtick, a fenced block is sanitized to its payload, trimmed. *)
Theorem cleanJsonText_drops_trailer (tag payload trailer : jstring) :
  has_line_break tag = false ->
  ~ In backtick trailer ->
  cleanJsonText (fence ++ tag ++ newline ++ payload ++ fence ++ trailer)
  = trim payload.
Proof.
  intros Htag Htrail. unfold cleanJsonText.
  assert (Htrim :
    trim (fence ++ tag ++ newline ++ payload ++ fence ++ trailer)
    = (fence ++ tag) ++ newline ++ payload ++ fence ++ trimEnd trailer).
  { unfold trim.
    replace (fence ++ tag ++ newline ++ payload ++ fence ++ trailer)
      with ((fence ++ tag ++ newline ++ payload ++ u16 "``")
              ++ backtick :: trailer)
      by (rewrite <- !app_assoc; reflexivity).
    rewrite trimEnd_app_keeps by reflexivity.
    rewrite <- !app_assoc. reflexivity. }
  rewrite Htrim.
  replace (startsWith _ fence) with true
    by (rewrite <- app_assoc; symmetry; apply startsWith_refl_app).
  rewrite drop_first_line_at
    by (apply has_line_break_app; [reflexivity | exact Htag]).
  unfold drop_last_fence, lastIndexOf.
  rewrite lastIndexOf_from_closing
    by (lia || (intros F%trimEnd_In; exact (Htrail F))).
  ztest. simpl negb. cbv iota. rewrite Z.add_0_l.
  now rewrite slice_prefix_app.
Qed.

Lemma cleanJsonText_drops_trailer_witness :
  cleanJsonText
    (fence ++ u16 "json" ++ newline ++ json_text "{'a': 1}" ++ fence
       ++ u16 " Hope this helps!")
  = json_text "{'a': 1}".
Proof.
  apply (cleanJsonText_drops_trailer (u16 "json") (json_text "{'a': 1}")
           (u16 " Hope this helps!")).
  - reflexivity.
  - vm_compute. intuition discriminate.
Defined.

(** ** The extractor on any envelope *)

Lemma get_index0_opt_total (v : value) : exists x, get_index0_opt v = Ok x.
Proof. destruct v; simpl; eauto. Qed.

(** X5.  An envelope whose first content item carries a text, in either of
    the two known shapes, yields that text, silently. *)
Theorem extractTextFromResponse_text (completion item : value) (s : jstring) :
  first_content_item completion = Ok item ->
  carries_text item s ->
  extractTextFromResponse completion = ([], Ok (Some s)).
Proof.
  intros Hitem Htext. unfold first_content_item in Hitem.
  destruct (get_field completion (u16 "output")) as [output|] eqn:E1;
    [|discriminate].
  destruct (get_index0 output) as [firstOutput|] eqn:E2; [|discriminate].
  destruct (get_field firstOutput (u16 "content")) as [content|] eqn:E3;
    [|discriminate].
  apply get_index0_defined in E2 as [E2 _].
  apply get_index0_defined in Hitem as [E4 Hcontent].
  pose proof (carries_text_truthy item s Htext) as T1.
  assert (T2 : truthy firstOutput = true)
    by (apply (get_field_defined _ _ _ E3); exact Hcontent).
  unfold extractTextFromResponse, try_catch, bind, lift, ret.
  rewrite E1, E2. simpl. rewrite T2. simpl. rewrite E3, E4. simpl.
  rewrite T1. simpl.
  destruct Htext as [->|(-> & text & -> & Hvalue)]; [reflexivity|].
  destruct text; try discriminate; simpl in Hvalue |- *;
    injection Hvalue as ->; reflexivity.
Qed.

Lemma extractTextFromResponse_text_witness :
  extractTextFromResponse
    (VObject
       [(u16 "output",
         VArray
           [VObject
              [(u16 "content",
                VArray
                  [VObject
                     [(u16 "type", VString (u16 "output_text"));
                      (u16 "text",
                       VObject [(u16 "value", VString (u16 "{}"))])]] [])]]
           [])])
  = ([], Ok (Some (u16 "{}"))).
Proof.
  apply (extractTextFromResponse_text _
           (VObject
              [(u16 "type", VString (u16 "output_text"));
               (u16 "text", VObject [(u16 "value", VString (u16 "{}"))])])).
  - reflexivity.
  - right. split; [reflexivity|]. eexists. split; reflexivity.
Defined.

(** X6.  The extractor never throws.  Given [null] or [undefined] it
    reports the [TypeError] of its first property read and returns [null];
    on every other value it prints nothing. *)
Theorem extractTextFromResponse_never_throws (completion : value) :
  exists rawText,
    extractTextFromResponse completion
    = ((if is_nullish completion
        then [Console LError (MsgExtractFailed TypeError)] else []),
       Ok rawText)
    /\ (is_nullish completion = true -> rawText = None).
Proof.
  destruct (is_nullish completion) eqn:Hn.
  { exists None. destruct completion; try discriminate; split; reflexivity. }
  assert (Hout : exists output, get_field completion (u16 "output") = Ok output)
    by (destruct completion; try discriminate; simpl; eauto).
  destruct Hout as [output E1].
  destruct (get_index0_opt_total output) as [firstOutput E2].
  unfold extractTextFromResponse, try_catch, bind, lift, ret.
  rewrite E1, E2. simpl.
  destruct (truthy firstOutput) eqn:T1; simpl;
    [|eexists; split; [reflexivity | discriminate]].
  destruct (get_field_truthy firstOutput (u16 "content") T1) as [content ->].
  destruct (get_index0_opt_total content) as [firstContent ->]. simpl.
  destruct (truthy firstContent) eqn:T2; simpl;
    [|eexists; split; [reflexivity | discriminate]].
  destruct (get_field_truthy firstContent (u16 "text") T2) as [text ->].
  destruct (get_field_truthy firstContent (u16 "type") T2) as [type ->].
  simpl.
  destruct (is_the_string type (u16 "output_text"));
    destruct text; simpl;
    repeat match goal with
      | |- context [if ?c then _ else _] => is_var c; destruct c; simpl
      | |- context [number_is_zero ?n] => destruct (number_is_zero n); simpl
      | |- context [or_undefined ?o] => destruct (or_undefined o); simpl
      end;
    eexists; (split; [reflexivity | discriminate]).
Qed.

(** ** Structuring: calls and fields *)




(** X9.  When the model's text decodes to an object, structuring returns
    that object with every property other than [originalTaskId] as the model
    gave it; [originalTaskId] itself is kept when truthy and replaced by the
    task's [id] otherwise. *)
Theorem interpretTaskWithLio_keeps_fields
  (c : client) (w : World) (task id completion : value) (p text : jstring)
  (props : list (jstring * value)) :
  get_field task (u16 "id") = Ok id ->
  userPrompt w = Ok p ->
  responses_create w = Ok completion ->
  outcome (extractTextFromResponse completion) = Ok (Some text) ->
  JSON_parse (cleanJsonText text) = Ok (VObject props) ->
  exists props',
    outcome (interpretTaskWithLio (Some c) w task) = Ok (VObject props')
    /\ (forall k, k <> u16 "originalTaskId" -> own k props' = own k props)
    /\ own (u16 "originalTaskId") props'
       = Some (if truthy (or_undefined (own (u16 "originalTaskId") props))
               then or_undefined (own (u16 "originalTaskId") props)
               else id).
Proof.
  intros Hid Hp Hc Hx Hparse.
  destruct (extractTextFromResponse completion) as [tr r] eqn:E.
  simpl in Hx. subst r.
  assert (Htext : exists ch t, text = ch :: t).
  { destruct text as [|ch t]; [|eauto]. vm_compute in Hparse. discriminate. }
  destruct Htext as (ch & t & ->).
  rewrite (interpretTaskWithLio_resolved c w task p completion tr
             (Some (ch :: t))) by assumption.
  simpl outcome. rewrite (structure_text_result task id) by exact Hid.
  unfold structured_or_none. rewrite Hparse. simpl.
  destruct (own (u16 "originalTaskId") props) as [x|] eqn:Hown; simpl.
  - destruct (truthy x) eqn:T.
    + exists props. now rewrite Hown.
    + exists (define (u16 "originalTaskId") id props).
      split; [reflexivity|]. split.
      * intros k Hk. apply own_define_other. congruence.
      * apply own_define_same.
  - exists (define (u16 "originalTaskId") id props).
    split; [reflexivity|]. split.
    + intros k Hk. apply own_define_other. congruence.
    + apply own_define_same.
Qed.

Lemma interpretTaskWithLio_keeps_fields_witness :
  exists props',
    outcome
      (interpretTaskWithLio (Some with_key)
         (answering (json_text "{'goal': 5, 'originalTaskId': ''}") 200)
         sample_task) = Ok (VObject props')
    /\ (forall k, k <> u16 "originalTaskId" ->
                  own k props'
                  = own k [(u16 "goal",
                            VNumber {| mantissa := 5; exponent := 0 |});
                           (u16 "originalTaskId", VString [])])
    /\ own (u16 "originalTaskId") props' = Some (VString (u16 "t-1")).
Proof.
  exact (interpretTaskWithLio_keeps_fields with_key
           (answering (json_text "{'goal': 5, 'originalTaskId': ''}") 200)
           sample_task (VString (u16 "t-1"))
           (text_envelope (json_text "{'goal': 5, 'originalTaskId': ''}"))
           sample_prompt (json_text "{'goal': 5, 'originalTaskId': ''}")
           [(u16 "goal", VNumber {| mantissa := 5; exponent := 0 |});
            (u16 "originalTaskId", VString [])]
           eq_refl eq_refl eq_refl eq_refl eq_refl).
Defined.

(** ** Forwarding *)

(** X12.  The forward call issues exactly one POST, to the structured-tasks
    path under the configured base URL, carrying the structured task
    unchanged, and then prints exactly one line: the transport error, the
    success, or the status of a response that is not OK. *)
Theorem forwardStructuredTaskToHueter_one_post
  (cfg : Config) (w : World) (structured originalTaskId : value) :
  get_field structured (u16 "originalTaskId") = Ok originalTaskId ->
  remote_calls (trace (forwardStructuredTaskToHueter cfg w structured))
  = [FetchPost (HUETER_CORE_URL cfg ++ u16 "/api/structured-tasks") structured]
  /\ (forall e, fetch w = Throw e ->
        forwardStructuredTaskToHueter cfg w structured
        = ([Remote (FetchPost (structured_tasks_url cfg) structured);
            Console LError (MsgCoreSendFailed e)], Ok tt))
  /\ (forall status, fetch w = Ok status -> status_ok status = true ->
        forwardStructuredTaskToHueter cfg w structured
        = ([Remote (FetchPost (structured_tasks_url cfg) structured);
            Console LLog (MsgCoreSent originalTaskId)], Ok tt))
  /\ (forall status, fetch w = Ok status -> status_ok status = false ->
        ToString_throws originalTaskId = false ->
        forwardStructuredTaskToHueter cfg w structured
        = ([Remote (FetchPost (structured_tasks_url cfg) structured);
            Console LError (MsgCoreNotOk status originalTaskId)], Ok tt)).
Proof.
  intros Hid. split.
  { rewrite forward_split. unfold forward_request, bind, emit.
    destruct (forward_rest_total w structured) as (l & m & ->). reflexivity. }
  unfold forwardStructuredTaskToHueter, forward_request, forward_settled,
    forward_failed, try_catch, bind, lift, emit, throw.
  repeat split.
  - intros e ->. reflexivity.
  - intros status -> Hok. rewrite Hid. simpl. now rewrite Hok.
  - intros status -> Hok Hs. rewrite Hid. simpl. now rewrite Hok, Hs.
Qed.

Lemma forwardStructuredTaskToHueter_one_post_witness :
  forwardStructuredTaskToHueter no_credential (answering [] 503)
    (VObject [(u16 "originalTaskId", VString (u16 "t-1"))])
  = ([Remote
        (FetchPost (u16 "http://localhost:3000/api/structured-tasks")
           (VObject [(u16 "originalTaskId", VString (u16 "t-1"))]));
      Console LError (MsgCoreNotOk 503 (VString (u16 "t-1")))], Ok tt).
Proof.
  exact (proj2 (proj2 (proj2
    (forwardStructuredTaskToHueter_one_post no_credential (answering [] 503)
       (VObject [(u16 "originalTaskId", VString (u16 "t-1"))])
       (VString (u16 "t-1")) eq_refl))) 503 eq_refl eq_refl eq_refl).
Defined.

(** ** The endpoint: what it calls and in which order *)

Lemma log_task_lines (task : value) :
  truthy task = true ->
  exists id author state rawText,
    log_task task = (task_log id author state rawText, Ok tt).
Proof.
  intros T. unfold log_task, bind, lift, emit.
  destruct (get_field_truthy task (u16 "id") T) as [x1 ->].
  destruct (get_field_truthy task (u16 "author") T) as [x2 ->].
  destruct (get_field_truthy task (u16 "state") T) as [x3 ->].
  destruct (get_field_truthy task (u16 "rawText") T) as [x4 ->].
  simpl. now exists x1, x2, x3, x4.
Qed.

(** X10.  The remote calls of one request, in order: those of structuring
    (at most the one model call), then, only if structuring returned a task,
    one POST of exactly that task to the Hueter core.  A request answered
    400 makes no call at all. *)
Theorem post_tasks_from_mfc_calls
  (cfg : Config) (w : World) (body task : value) :
  task_of_body body = Ok task ->
  remote_calls (trace (post_tasks_from_mfc cfg w body))
  = if truthy task then
      remote_calls (trace (interpretTaskWithLio (openai cfg) w task))
      ++ (if truthy
               (structured_or_null
                  (outcome (interpretTaskWithLio (openai cfg) w task)))
          then [FetchPost (structured_tasks_url cfg)
                  (structured_or_null
                     (outcome (interpretTaskWithLio (openai cfg) w task)))]
          else [])
    else [].
Proof.
  intros Ht. unfold post_tasks_from_mfc, bind, lift. rewrite Ht. simpl.
  destruct (truthy task) eqn:T; simpl; [|reflexivity].
  destruct (log_task_lines task T) as (x1 & x2 & x3 & x4 & ->). simpl.
  destruct (interpretTaskWithLio (openai cfg) w task) as [tri [v|e]]; simpl.
  - destruct (truthy v) eqn:Tv; simpl; rewrite ?Tv.
    + destruct (forward_rest_total w v) as (l & m & ->). simpl.
      now rewrite remote_calls_app.
    + now rewrite remote_calls_app.
  - rewrite !remote_calls_app. simpl. now rewrite !app_nil_r.
Qed.

Lemma post_tasks_from_mfc_calls_witness :
  remote_calls
    (trace
       (post_tasks_from_mfc
          {| OPENAI_API_KEY := Some (u16 "sk-test");
             HUETER_CORE_URL_env := Some (u16 "http://core:3000") |}
          (answering (json_text "{'goal': 'g'}") 200)
          (VObject [(u16 "task", sample_task)])))
  = [ResponsesCreate model_name sample_prompt;
     FetchPost (u16 "http://core:3000/api/structured-tasks")
       (VObject [(u16 "goal", VString (u16 "g"));
                 (u16 "originalTaskId", VString (u16 "t-1"))])].
Proof.
  exact (post_tasks_from_mfc_calls
           {| OPENAI_API_KEY := Some (u16 "sk-test");
              HUETER_CORE_URL_env := Some (u16 "http://core:3000") |}
           (answering (json_text "{'goal': 'g'}") 200)
           (VObject [(u16 "task", sample_task)]) sample_task eq_refl).
Defined.

(** X8.  A model call that fails is not caught by the structuring operation
    but by the endpoint: the error is printed, the task is acknowledged with
    [structuredTask: null], and nothing is forwarded. *)
Theorem post_tasks_from_mfc_model_failure
  (cfg : Config) (w : World) (body task : value) (c : client) (p : jstring)
  (e : exn) :
  task_of_body body = Ok task ->
  truthy task = true ->
  openai cfg = Some c ->
  userPrompt w = Ok p ->
  responses_create w = Throw e ->
  interpretTaskWithLio (openai cfg) w task
  = ([Remote (ResponsesCreate model_name p)], Throw e)
  /\ exists id author state rawText,
       post_tasks_from_mfc cfg w body
       = (task_log id author state rawText
            ++ [Remote (ResponsesCreate model_name p);
                Console LError (MsgInterpretFailed e);
                Console LWarn MsgNoStructuredTask;
                Respond 200 (acknowledgement VNull)], Ok tt).
Proof.
  intros Ht T Ho Hp Hc.
  assert (Hi : interpretTaskWithLio (openai cfg) w task
               = ([Remote (ResponsesCreate model_name p)], Throw e)).
  { rewrite Ho. unfold interpretTaskWithLio, bind, lift, emit.
    now rewrite Hp, Hc. }
  split; [exact Hi|].
  destruct (log_task_lines task T) as (x1 & x2 & x3 & x4 & Hl).
  exists x1, x2, x3, x4.
  unfold post_tasks_from_mfc, bind, lift. rewrite Ht. simpl. rewrite T. simpl.
  rewrite Hl, Hi. reflexivity.
Qed.

Lemma post_tasks_from_mfc_model_failure_witness :
  interpretTaskWithLio
    (openai {| OPENAI_API_KEY := Some (u16 "sk-test");
               HUETER_CORE_URL_env := None |})
    {| userPrompt := Ok sample_prompt;
       responses_create := Throw (Error (u16 "ECONNREFUSED"));
       fetch := Ok 200 |}
    sample_task
  = ([Remote (ResponsesCreate model_name sample_prompt)],
     Throw (Error (u16 "ECONNREFUSED"))).
Proof.
  exact (proj1
    (post_tasks_from_mfc_model_failure
       {| OPENAI_API_KEY := Some (u16 "sk-test"); HUETER_CORE_URL_env := None |}
       {| userPrompt := Ok sample_prompt;
          responses_create := Throw (Error (u16 "ECONNREFUSED"));
          fetch := Ok 200 |}
       (VObject [(u16 "task", sample_task)]) sample_task
       (OpenAI (u16 "sk-test")) sample_prompt (Error (u16 "ECONNREFUSED"))
       eq_refl eq_refl eq_refl eq_refl eq_refl)).
Defined.

(** X11.  Without a credential (the variable unset or empty) the endpoint
    still acknowledges every task, with [structuredTask: null], and makes no
    remote call: neither to the model nor to the Hueter core. *)
Theorem post_tasks_from_mfc_disabled
  (cfg : Config) (w : World) (body task : value) :
  OPENAI_API_KEY cfg = None \/ OPENAI_API_KEY cfg = Some [] ->
  task_of_body body = Ok task ->
  truthy task = true ->
  responses (trace (post_tasks_from_mfc cfg w body))
  = [(200, acknowledgement VNull)]
  /\ remote_calls (trace (post_tasks_from_mfc cfg w body)) = [].
Proof.
  intros Hkey%openai_absent Ht T.
  destruct (log_task_lines task T) as (x1 & x2 & x3 & x4 & Hl).
  unfold post_tasks_from_mfc, bind, lift. rewrite Ht. simpl. rewrite T. simpl.
  rewrite Hl, Hkey. split; reflexivity.
Qed.

Lemma post_tasks_from_mfc_disabled_witness :
  responses
    (trace
       (post_tasks_from_mfc
          {| OPENAI_API_KEY := Some []; HUETER_CORE_URL_env := None |}
          (answering complete_answer 200)
          (VObject [(u16 "task", sample_task)])))
  = [(200, acknowledgement VNull)].
Proof.
  exact (proj1
    (post_tasks_from_mfc_disabled
       {| OPENAI_API_KEY := Some []; HUETER_CORE_URL_env := None |}
       (answering complete_answer 200)
       (VObject [(u16 "task", sample_task)]) sample_task
       (or_intror eq_refl) eq_refl eq_refl)).
Defined.

(** ** Listing workflows *)

Section WorkflowFacts.

Variable Number_toString : number -> jstring.

Lemma to_WorkflowDef_value (d : WorkflowDef) :
  wf_label d <> [] ->
  to_WorkflowDef Number_toString (WorkflowDef_value d) = Ok d.
Proof.
  destruct d as [id label description]. simpl. intros H.
  destruct label as [|c label]; [congruence|].
  destruct description; reflexivity.
Qed.

Lemma map_WorkflowDef_values (ds : list WorkflowDef) :
  Forall (fun d => wf_label d <> []) ds ->
  map_WorkflowDef Number_toString (map WorkflowDef_value ds) = Ok ds.
Proof.
  induction 1 as [|d ds Hd _ IH]; [reflexivity|].
  cbn [map map_WorkflowDef]. now rewrite to_WorkflowDef_value, IH.
Qed.

Lemma map_WorkflowDef_null (elems : list value) :
  In VNull elems ->
  exists e, map_WorkflowDef Number_toString elems = Throw e.
Proof.
  induction elems as [|x elems IH]; [intros []|].
  intros [->|H]; [now exists TypeError|].
  cbn [map_WorkflowDef].
  destruct (to_WorkflowDef Number_toString x); [|eauto].
  destruct (IH H) as [e ->]. eauto.
Qed.

(** The handler once the MFC has answered an object with a [workflows]
    array. *)
Lemma get_workflows_answered
  (ch : N) (raw : jstring) (props : list (jstring * value))
  (elems : list value) (named : list (jstring * value)) :
  JSON_parse (ch :: raw) = Ok (VObject props) ->
  own (u16 "workflows") props = Some (VArray elems named) ->
  outcome (get_workflows Number_toString (Answered (ch :: raw)))
  = match map_WorkflowDef Number_toString elems with
    | Ok ds => Ok ds
    | Throw _ => Ok fallbackWorkflows
    end.
Proof.
  intros Hparse Hown.
  unfold get_workflows, workflows_from_mfc, httpRequestToMfc, try_catch, bind,
    lift, emit, throw, ret.
  rewrite Hparse. simpl. rewrite Hown. simpl.
  destruct (map_WorkflowDef Number_toString elems); reflexivity.
Qed.

End WorkflowFacts.

(** X13.  When the MFC answers a [workflows] array of definitions whose
    [id], [label] and [description] are strings, with no empty label, the
    handler answers exactly those definitions, in order; an empty array is
    answered as the empty list, not as the built-in one. *)
Theorem get_workflows_passthrough
  (Number_toString : number -> jstring) (ch : N) (raw : jstring)
  (props named : list (jstring * value)) (ds : list WorkflowDef) :
  JSON_parse (ch :: raw) = Ok (VObject props) ->
  own (u16 "workflows") props = Some (VArray (map WorkflowDef_value ds) named) ->
  Forall (fun d => wf_label d <> []) ds ->
  outcome (get_workflows Number_toString (Answered (ch :: raw))) = Ok ds.
Proof.
  intros Hparse Hown Hds.
  rewrite (get_workflows_answered Number_toString ch raw props
             (map WorkflowDef_value ds) named) by assumption.
  now rewrite map_WorkflowDef_values.
Qed.

Lemma get_workflows_passthrough_witness :
  outcome
    (get_workflows (fun _ => [])
       (Answered
          (json_text
             "{'workflows': [{'id': 'a', 'label': 'A', 'description': ''}]}")))
  = Ok [ {| wf_id := u16 "a"; wf_label := u16 "A"; wf_description := [] |} ].
Proof.
  apply (get_workflows_passthrough (fun _ => []) 123%N
           (json_text
              "'workflows': [{'id': 'a', 'label': 'A', 'description': ''}]}")
           [(u16 "workflows",
             VArray
               [WorkflowDef_value
                  {| wf_id := u16 "a"; wf_label := u16 "A";
                     wf_description := [] |}] [])]
           []).
  - reflexivity.
  - reflexivity.
  - repeat constructor. discriminate.
Defined.

(** X14.  The defaults of a listed workflow: a definition without [label]
    is labelled with its [id], and one without [description] gets the empty
    description; a definition without [id] is listed under the identifier
    [undefined]. *)
Theorem to_WorkflowDef_defaults
  (Number_toString : number -> jstring) (props : list (jstring * value)) :
  own (u16 "label") props = None ->
  own (u16 "description") props = None ->
  (forall id,
      own (u16 "id") props = Some (VString id) ->
      to_WorkflowDef Number_toString (VObject props)
      = Ok {| wf_id := id; wf_label := id; wf_description := [] |})
  /\ (own (u16 "id") props = None ->
      to_WorkflowDef Number_toString (VObject props)
      = Ok {| wf_id := u16 "undefined"; wf_label := u16 "undefined";
              wf_description := [] |}).
Proof.
  intros Hl Hd. unfold to_WorkflowDef, get_field.
  split; [intros id Hid | intros Hid]; rewrite Hid, Hl, Hd; simpl;
    [destruct id|]; reflexivity.
Qed.

Lemma to_WorkflowDef_defaults_witness :
  to_WorkflowDef (fun _ => []) (VObject [(u16 "id", VString (u16 "dev-start"))])
  = Ok {| wf_id := u16 "dev-start"; wf_label := u16 "dev-start";
          wf_description := [] |}.
Proof.
  exact (proj1
    (to_WorkflowDef_defaults (fun _ => [])
       [(u16 "id", VString (u16 "dev-start"))] eq_refl eq_refl)
    (u16 "dev-start") eq_refl).
Defined.

(** X15.  The listing is all or nothing: a single [null] among the
    workflows sent by the MFC makes the handler answer the built-in list,
    dropping the well-formed definitions as well. *)
Theorem get_workflows_null_element
  (Number_toString : number -> jstring) (ch : N) (raw : jstring)
  (props named : list (jstring * value)) (elems : list value) :
  JSON_parse (ch :: raw) = Ok (VObject props) ->
  own (u16 "workflows") props = Some (VArray elems named) ->
  In VNull elems ->
  outcome (get_workflows Number_toString (Answered (ch :: raw)))
  = Ok fallbackWorkflows.
Proof.
  intros Hparse Hown Hnull.
  rewrite (get_workflows_answered Number_toString ch raw props elems named)
    by assumption.
  now destruct (map_WorkflowDef_null Number_toString elems Hnull) as [e ->].
Qed.

Lemma get_workflows_null_element_witness :
  outcome
    (get_workflows (fun _ => [])
       (Answered (json_text "{'workflows': [{'id': 'a', 'label': 'A'}, null]}")))
  = Ok fallbackWorkflows.
Proof.
  apply (get_workflows_null_element (fun _ => []) 123%N
           (json_text "'workflows': [{'id': 'a', 'label': 'A'}, null]}")
           [(u16 "workflows",
             VArray [VObject [(u16 "id", VString (u16 "a"));
                              (u16 "label", VString (u16 "A"))]; VNull] [])]
           []
           [VObject [(u16 "id", VString (u16 "a"));
                     (u16 "label", VString (u16 "A"))]; VNull]).
  - reflexivity.
  - reflexivity.
  - right. left. reflexivity.
Defined.

(** X16.  Listing the workflows asks the MFC at most once, at
    [/api/workflows]: once whenever the base URL parses, never again after a
    failure. *)
Theorem get_workflows_one_request
  (Number_toString : number -> jstring) (t : transport) :
  remote_calls (trace (get_workflows Number_toString t))
  = match t with
    | BadUrl => []
    | _ => [HttpGet (u16 "/api/workflows")]
    end.
Proof.
  unfold get_workflows, workflows_from_mfc, httpRequestToMfc, try_catch, bind,
    lift, emit, throw, ret.
  destruct t as [|err|[|ch raw]]; try reflexivity.
  destruct (JSON_parse (ch :: raw)) as [mfcData|e]; [|reflexivity].
  simpl. destruct (truthy mfcData); simpl; [|reflexivity].
  destruct (get_field mfcData (u16 "workflows")) as [[]|e]; simpl;
    try reflexivity.
  destruct (map_WorkflowDef Number_toString elems); reflexivity.
Qed.

(** ** The registry of runs *)

Section RegistryFacts.

Implicit Types (runs : gmap jstring Run) (now id k : jstring).

Lemma length_get_runs runs : length (get_runs runs) = size runs.
Proof. unfold get_runs. now rewrite length_fmap, length_map_to_list. Qed.

Lemma make_runId_inj now id id' :
  make_runId now id = make_runId now id' -> id = id'.
Proof.
  unfold make_runId. intros H.
  now repeat apply app_inv_head in H.
Qed.

Lemma registry_from_lookup (starts : list (jstring * jstring)) runs k (r : Run) :
  registry_from runs starts !! k = Some r ->
  runs !! k = Some r
  \/ exists now id,
       In (now, id) starts /\ r = make_run now id /\ k = make_runId now id.
Proof.
  revert runs. induction starts as [|[now id] starts IH]; intros runs H.
  - now left.
  - apply IH in H as [H|(now' & id' & Hin & Hr & Hk)].
    + simpl in H. rewrite lookup_insert in H.
      destruct (decide (make_runId now id = k)) as [E|E].
      * injection H as <-. right. exists now, id. repeat split; auto.
        now left.
      * now left.
    + right. exists now', id'. repeat split; auto. now right.
Qed.

End RegistryFacts.

(** X17.  Starting a workflow leaves every other run as it was: reading any
    identifier other than the new [runId] gives the same answer as before. *)
Theorem start_keeps_other_runs
  (runs : gmap jstring Run) (now id k : jstring) :
  k <> make_runId now id ->
  fst (post_workflows_start runs now id) !! k = runs !! k
  /\ get_run (fst (post_workflows_start runs now id)) k = get_run runs k.
Proof.
  intros Hk. simpl. unfold get_run, runs_get.
  rewrite lookup_insert_ne by congruence. split; reflexivity.
Qed.

Lemma start_keeps_other_runs_witness :
  get_run
    (fst (post_workflows_start
            (registry_from ∅ [(noon, u16 "dev-start")]) noon
            (u16 "hueter-dev-session")))
    (make_runId noon (u16 "dev-start"))
  = get_run (registry_from ∅ [(noon, u16 "dev-start")])
      (make_runId noon (u16 "dev-start")).
Proof.
  apply (start_keeps_other_runs (registry_from ∅ [(noon, u16 "dev-start")])
           noon (u16 "hueter-dev-session") (make_runId noon (u16 "dev-start"))).
  vm_compute. discriminate.
Defined.


(** X18.  The number of runs listed grows by one when the new [runId] is
    fresh.  When a run is already stored under it (the same workflow started
    again at the same clock reading) that run is overwritten: the count stays
    and the identifier now answers the new run. *)
Theorem start_counts_runs (runs : gmap jstring Run) (now id : jstring) :
  (runs !! make_runId now id = None ->
   length (get_runs (fst (post_workflows_start runs now id)))
   = S (length (get_runs runs)))
  /\ (forall old,
        runs !! make_runId now id = Some old ->
        length (get_runs (fst (post_workflows_start runs now id)))
        = length (get_runs runs)
        /\ get_run (fst (post_workflows_start runs now id)) (make_runId now id)
           = RunFound (make_run now id)).
Proof.
  split.
  - intros H. rewrite !length_get_runs. now apply map_size_insert_None.
  - intros old H. rewrite !length_get_runs. split.
    + apply map_size_insert_Some. simpl. eauto.
    + simpl. unfold get_run, runs_get. now rewrite lookup_insert_eq.
Qed.

Lemma start_counts_runs_witness :
  length
    (get_runs
       (fst (post_workflows_start
               (registry_from ∅ [(noon, u16 "dev-start")]) noon
               (u16 "dev-start"))))
  = length (get_runs (registry_from ∅ [(noon, u16 "dev-start")])).
Proof.
  exact (proj1
    (proj2
       (start_counts_runs (registry_from ∅ [(noon, u16 "dev-start")]) noon
          (u16 "dev-start"))
       (make_run noon (u16 "dev-start")) eq_refl)).
Defined.


(** X19.  Two different workflows started at the same clock reading get
    different run identifiers, and both runs can be read back afterwards. *)
Theorem start_two_workflows
  (runs : gmap jstring Run) (now id id' : jstring) :
  id <> id' ->
  let runs1 := fst (post_workflows_start runs now id) in
  let runs2 := fst (post_workflows_start runs1 now id') in
  make_runId now id <> make_runId now id'
  /\ get_run runs2 (make_runId now id) = RunFound (make_run now id)
  /\ get_run runs2 (make_runId now id') = RunFound (make_run now id').
Proof.
  intros Hid. simpl.
  assert (Hk : make_runId now id <> make_runId now id')
    by (intros E%make_runId_inj; congruence).
  split; [exact Hk|]. unfold get_run, runs_get. split.
  - rewrite lookup_insert_ne by congruence. now rewrite lookup_insert_eq.
  - now rewrite lookup_insert_eq.
Qed.

Lemma start_two_workflows_witness :
  get_run
    (registry_from ∅ [(noon, u16 "dev-start"); (noon, u16 "hueter-dev-session")])
    (make_runId noon (u16 "dev-start"))
  = RunFound (make_run noon (u16 "dev-start")).
Proof.
  apply (start_two_workflows ∅ noon (u16 "dev-start")
           (u16 "hueter-dev-session")).
  vm_compute. discriminate.
Defined.


(** X20.  Runs are only ever created: in the registry reached from the empty
    one by any sequence of start requests, every stored run is the run one
    of those requests created, unchanged (status running, not finished, two
    steps), it is stored under its own [runId] and is read back by it. *)
Theorem registry_runs_as_started
  (starts : list (jstring * jstring)) (k : jstring) (r : Run) :
  registry_from ∅ starts !! k = Some r ->
  k = runId r
  /\ get_run (registry_from ∅ starts) (runId r) = RunFound r
  /\ status r = running /\ finishedAt r = None /\ length (steps r) = 2%nat
  /\ exists now id, In (now, id) starts /\ r = make_run now id.
Proof.
  intros H.
  destruct (registry_from_lookup starts ∅ k r H)
    as [F|(now & id & Hin & -> & ->)].
  { rewrite lookup_empty in F. discriminate. }
  split; [reflexivity|]. split.
  - unfold get_run, runs_get. simpl runId. now rewrite H.
  - repeat split. eauto.
Qed.

Lemma registry_runs_as_started_witness :
  get_run
    (registry_from ∅ [(noon, u16 "dev-start"); (noon, u16 "hueter-dev-session")])
    (runId (make_run noon (u16 "dev-start")))
  = RunFound (make_run noon (u16 "dev-start")).
Proof.
  exact (proj1 (proj2
    (registry_runs_as_started
       [(noon, u16 "dev-start"); (noon, u16 "hueter-dev-session")]
       (make_runId noon (u16 "dev-start")) (make_run noon (u16 "dev-start"))
       eq_refl))).
Defined.



(** X22.  The listing after a start holds exactly the new run and the runs
    stored before under other identifiers. *)
Theorem get_runs_after_start
  (runs : gmap jstring Run) (now id : jstring) (r : Run) :
  r ∈ get_runs (fst (post_workflows_start runs now id))
  <-> r = make_run now id
      \/ exists k, k <> make_runId now id /\ runs !! k = Some r.
Proof.
  unfold get_runs. simpl. rewrite list_elem_of_fmap. split.
  - intros ([k r'] & -> & H). apply elem_of_map_to_list in H.
    rewrite lookup_insert in H. simpl.
    destruct (decide (make_runId now id = k)) as [E|E].
    + left. congruence.
    + right. exists k. split; [congruence | exact H].
  - intros [->|(k & Hk & H)].
    + exists (make_runId now id, make_run now id). split; [reflexivity|].
      apply elem_of_map_to_list. apply lookup_insert_eq.
    + exists (k, r). split; [reflexivity|].
      apply elem_of_map_to_list. now rewrite lookup_insert_ne by congruence.
Qed.
